(** * HNSW index with payload side-table: model and verified properties

    The development embeds
    - [src/lib/embedding/hnsw/db.ts]: the class [HNSWWithDB], which extends
      the base index [HNSW] with a payload map and its own
      [toJSON]/[fromJSON];
    - the semantic search service: the helpers [blocksToText] and
      [l2Normalize] and the class [SemanticSearchService], whose
      collaborators (embedding service, store, index methods) are kept
      abstract.

    The base class [HNSW] (file [main.ts]) and the similarity functions
    (file [similarity.ts]) lie outside these two files.  The state of the
    base class, its constructor, its serializer and its search are modelled
    from the specification, each under a comment that says so; its
    [addPoint] is kept abstract.

    Numbers that the index uses as identifiers, sizes or layers are
    integers ([Z]).  Vector components and scores are exact reals ([R]):
    the rounding done by IEEE arithmetic and by [Float32Array] is not
    modelled there.  [l2Normalize] is given a second time as it is
    computed, on binary64 numbers with binary32 stores ([IEEE.l2Normalize]),
    for what depends on that arithmetic. *)

From Stdlib Require Import ZArith Reals Lra Ascii String SpecFloat.
From stdpp Require Import base option list strings gmap.

Local Open Scope Z_scope.

(** ** Vectors *)

(** [Float32Array | number[]], read as a sequence of exact reals. *)
Abbreviation vector := (list R).

(** [new Float32Array(a)] copies the components of [a]; over exact reals
    no component changes.  The rounding of each component to binary32 is
    left out: what is stated of the components of a converted vector holds
    for components that are binary32 values. *)
Definition Float32Array_from (a : list R) : vector := a.

(** The Euclidean norm of the specification, [sqrt (sum of squares)]. *)
Definition sum_squares (v : vector) : R :=
  foldr (λ x acc, x * x + acc)%R 0%R v.

Definition euclidean_norm (v : vector) : R := sqrt (sum_squares v).

(** ** [l2Normalize] (semantic search service)

<<
function l2Normalize(v: Float32Array): Float32Array {
  let norm = 0;
  for (const x of v) norm += x * x;
  norm = 1 / Math.sqrt(norm || 1e-9);
  return v.map(x => x * norm) as Float32Array;
}
>>
    [norm || 1e-9] takes [1e-9] exactly when [norm] is falsy, which for a
    real number means zero. *)
Definition js_or_number (x dflt : R) : R :=
  if Req_dec_T x 0 then dflt else x.

Definition l2Normalize (v : vector) : vector :=
  let norm := fold_left (λ norm x, norm + x * x)%R v 0%R in
  let norm := (1 / sqrt (js_or_number norm (1 / 10 ^ 9)))%R in
  (λ x, x * norm)%R <$> v.

(** ** Outcomes of a call

    A call either returns a value or throws.  The error kinds are the ones
    the specification names (section 7). *)
Inductive error : Type :=
  | DimensionMismatch
  | DuplicateId
  | CorruptRecord.

Inductive result (A : Type) : Type :=
  | Ok (a : A)
  | Throw (e : error).
Arguments Ok {A} a.
Arguments Throw {A} e.

Global Instance result_ret : MRet result := λ A a, Ok a.
Global Instance result_bind : MBind result := λ A B f r,
  match r with
  | Ok a => f a
  | Throw e => Throw e
  end.

(** [new Map(entries)]: the entries are set one after the other, so a later
    entry for a key replaces an earlier one. *)
Definition Map_from {V : Type} (entries : list (Z * V)) : gmap Z V :=
  fold_left (λ m e, <[e.1 := e.2]> m) entries ∅.

(** ** Similarity ([similarity.ts], modelled from section 4.1) *)

(** Modelled from the spec: the metrics an index recognizes (section 3,
    parameters); [db.ts] passes the metric on as the string ['cosine']. *)
Inductive Metric : Type := cosine | euclidean.

(** Modelled from the spec: the dot product used by the missing
    [cosineSimilarity]. *)
Definition dot (u v : vector) : R :=
  foldr Rplus 0%R (zip_with Rmult u v).

(** Modelled from the spec: the Euclidean distance used by the missing
    [euclideanSimilarity]. *)
Definition distance (u v : vector) : R :=
  sqrt (sum_squares (zip_with Rminus u v)).

(** Modelled from the spec: the missing [cosineSimilarity],
    [dot(u,v) / (|u| * |v|)], which counts as 0 when the norm product
    vanishes.  The specification gives no threshold for "near zero", so
    exactly zero is the guarded case. *)
Definition cosineSimilarity (u v : vector) : R :=
  let n := (euclidean_norm u * euclidean_norm v)%R in
  if Req_dec_T n 0 then 0%R else (dot u v / n)%R.

(** Modelled from the spec: the missing [euclideanSimilarity],
    [1 / (1 + distance(u,v))]. *)
Definition euclideanSimilarity (u v : vector) : R :=
  (1 / (1 + distance u v))%R.

(** Modelled from the spec: the score under the selected metric, which
    fails with [DimensionMismatch] on vectors of different length. *)
Definition similarity (m : Metric) (u v : vector) : result R :=
  if bool_decide (length u = length v) then
    Ok match m with
       | cosine => cosineSimilarity u v
       | euclidean => euclideanSimilarity u v
       end
  else Throw DimensionMismatch.

(** ** Nodes and search hits *)

(** Modelled from the spec: the node record of the missing [node.ts]
    (section 3), [{ id, vector, neighbors }] with [neighbors] indexed by
    layer.  The serialized node has the same fields, its vector being a
    plain array; [HNSWWithDB.fromJSON] copies it and converts the vector. *)
Record Node : Type := mkNode {
  node_id : Z;
  node_vector : vector;
  node_neighbors : list (list Z);
}.

(** An entry [{ id, score }] of a search result, as [searchKNNWithData]
    reads it. *)
Record hit : Type := mkHit {
  hit_id : Z;
  hit_score : R;
}.

(** ** The base class [HNSW] *)
Module HNSW.

(** Modelled from the spec: the fields of the base class, which is
    missing (section 3, graph state and parameters).  The fields
    [levelMax], [entryPointId] and [nodes] carry the names under which
    [HNSWWithDB.fromJSON] assigns them.  [nodes] is a [Map] from id to
    node; the order in which a [Map] iterates is not kept. *)
Record t : Type := mk {
  M : Z;
  efConstruction : Z;
  d : option Z;
  metric : Metric;
  levelMax : Z;
  entryPointId : option Z;
  nodes : gmap Z Node;
}.

(** Modelled from the spec: the constructor of the missing base class
    (section 6, construction).  The parameters are stored as given and
    the graph starts empty. *)
Definition new (M efConstruction : Z) (d : option Z) (metric : Metric) : t :=
  {| M := M; efConstruction := efConstruction; d := d; metric := metric;
     levelMax := 0; entryPointId := None; nodes := ∅ |}.

(** Modelled from the spec: the portable record of the missing base class.
    Section 4.6 lists its fields; [nodes] is the list of [[id, node]] pairs
    that [HNSWWithDB.fromJSON] reads. *)
Record JSON : Type := mkJSON {
  json_M : Z;
  json_efConstruction : Z;
  json_metric : Metric;
  json_d : option Z;
  json_levelMax : Z;
  json_entryPointId : option Z;
  json_nodes : list (Z * Node);
}.

(** Modelled from the spec: [toJSON] of the missing base class
    (section 4.6): every parameter, the top layer, the entry point and
    the nodes, each vector as its literal sequence of numbers. *)
Definition toJSON (h : t) : JSON :=
  {| json_M := M h;
     json_efConstruction := efConstruction h;
     json_metric := metric h;
     json_d := d h;
     json_levelMax := levelMax h;
     json_entryPointId := entryPointId h;
     json_nodes := map_to_list (nodes h) |}.

(** *** [searchKNN] (modelled from section 4.5)

    The two queues of the beam search are lists from which the extreme
    element is extracted (section 4.2 fixes their contract, not a layout);
    the first of several equal entries wins.  Edges to ids that are not in
    [nodes] are skipped.  Since a [Map]'s iteration order is not kept, the
    final ranking is a stable sort of the entries in the order the search
    found them. *)
Section Search.
Variable h : t.
Variable query : vector.

(** Modelled from the spec: [neighborsAt(layer)] of a node (section 4.3). *)
Definition neighborsAt (id : Z) (layer : nat) : list Z :=
  match nodes h !! id with
  | Some n => default [] (node_neighbors n !! layer)
  | None => []
  end.

(** Modelled from the spec: scoring the neighbours of a point, that is the
    score of each id of [ids] that names a node. *)
Fixpoint scored (ids : list Z) : result (list (Z * R)) :=
  match ids with
  | [] => Ok []
  | id :: ids =>
      match nodes h !! id with
      | None => scored ids
      | Some n =>
          s ← similarity (metric h) query (node_vector n);
          rest ← scored ids;
          Ok ((id, s) :: rest)
      end
  end.

(** Modelled from the spec: the higher of two scored points, the first on
    a tie. *)
Definition better (a b : Z * R) : Z * R :=
  if Rlt_dec a.2 b.2 then b else a.

(** Modelled from the spec: the single-best-neighbour walk within one
    layer (section 4.4 step 3): move to the neighbour of highest score
    while that improves on the current point. *)
Fixpoint greedy_walk (fuel : nat) (layer : nat) (cur : Z * R)
  : result (Z * R) :=
  match fuel with
  | O => Ok cur
  | S fuel =>
      nbrs ← scored (neighborsAt cur.1 layer);
      let next := fold_left better nbrs cur in
      if Rlt_dec cur.2 next.2 then greedy_walk fuel layer next
      else Ok cur
  end.

(** Modelled from the spec: the greedy descent through the layers
    [layer], ..., 1 (section 4.5 step 1). *)
Fixpoint greedy_descent (fuel : nat) (layer : nat) (cur : Z * R)
  : result (Z * R) :=
  match layer with
  | O => Ok cur
  | S below =>
      cur ← greedy_walk fuel layer cur;
      greedy_descent fuel below cur
  end.

(** Modelled from the spec: [pop] of the candidate queue, which removes the
    entry of highest score (section 4.2). *)
Fixpoint pop_max (q : list (Z * R)) : option ((Z * R) * list (Z * R)) :=
  match q with
  | [] => None
  | x :: q =>
      match pop_max q with
      | None => Some (x, [])
      | Some (y, rest) =>
          if Rlt_dec x.2 y.2 then Some (y, x :: rest) else Some (x, q)
      end
  end.

(** Modelled from the spec: [pop] of the best-set queue, which removes the
    entry of lowest score (section 4.2). *)
Fixpoint pop_min (q : list (Z * R)) : option ((Z * R) * list (Z * R)) :=
  match q with
  | [] => None
  | x :: q =>
      match pop_min q with
      | None => Some (x, [])
      | Some (y, rest) =>
          if Rlt_dec y.2 x.2 then Some (y, x :: rest) else Some (x, q)
      end
  end.

(** Modelled from the spec: the state of the beam search (section 4.5
    step 2): candidates to expand, best entries found, ids seen. *)
Record beam : Type := mkBeam {
  candidates : list (Z * R);
  best : list (Z * R);
  visited : gset Z;
}.

(** Modelled from the spec: admission of a scored neighbour (section 4.5
    step 2).  It enters the best-set when the set is not full, or
    when it beats the worst entry, which it then evicts; a neighbour that
    entered is also a candidate to expand. *)
Definition offer (ef : nat) (st : beam) (c : Z * R) : beam :=
  if bool_decide (length (best st) < ef)%nat then
    {| candidates := candidates st ++ [c];
       best := best st ++ [c];
       visited := visited st |}
  else
    match pop_min (best st) with
    | Some (worst, rest) =>
        if Rlt_dec worst.2 c.2 then
          {| candidates := candidates st ++ [c];
             best := rest ++ [c];
             visited := visited st |}
        else st
    | None => st
    end.

(** Modelled from the spec: the early stop (section 4.5 step 2): the best
    unexpanded candidate is strictly worse than the worst of the
    best-set. *)
Definition cannot_beat (c : Z * R) (best : list (Z * R)) : bool :=
  match pop_min best with
  | Some (worst, _) => if Rlt_dec c.2 worst.2 then true else false
  | None => false
  end.

(** Modelled from the spec: the beam search of width [ef] (section 4.5
    step 2).  Every round expands one candidate and no id is scored twice,
    so [fuel] above the number of nodes is never used up. *)
Fixpoint beam_search (fuel : nat) (ef : nat) (st : beam)
  : result (list (Z * R)) :=
  match fuel with
  | O => Ok (best st)
  | S fuel =>
      match pop_max (candidates st) with
      | None => Ok (best st)
      | Some (c, rest) =>
          if cannot_beat c (best st) then Ok (best st)
          else
            let fresh :=
              filter (λ id, id ∉ visited st)
                     (remove_dups (neighborsAt c.1 0)) in
            nbrs ← scored fresh;
            beam_search fuel ef
              (fold_left (offer ef) nbrs
                 {| candidates := rest;
                    best := best st;
                    visited := visited st ∪ list_to_set fresh |})
      end
  end.

(** Modelled from the spec: the stable ranking by descending score
    (section 4.5, contract). *)
Fixpoint insert_ranked (x : Z * R) (l : list (Z * R)) : list (Z * R) :=
  match l with
  | [] => [x]
  | y :: l' =>
      if Rlt_dec y.2 x.2 then x :: l else y :: insert_ranked x l'
  end.

(** Modelled from the spec: the ranked best-set (section 4.5 step 3). *)
Definition ranked (l : list (Z * R)) : list (Z * R) :=
  fold_left (λ acc x, insert_ranked x acc) l [].

(** Modelled from the spec: the query has the dimension the index is fixed
    to (section 7, [DimensionMismatch]). *)
Definition dimension_ok : bool :=
  match d h with
  | Some n => bool_decide (Z.of_nat (length query) = n)
  | None => true
  end.

(** Modelled from the spec: [searchKNN] of the missing base class (section
    4.5).  The empty list for an empty graph or [k ≤ 0]; otherwise greedy
    descent from the entry point, beam search of width
    [max(k, efConstruction)] on layer 0, and the top [k] of what it
    found. *)
Definition searchKNN (k : Z) : result (list hit) :=
  if bool_decide (size (nodes h) = 0%nat) || bool_decide (k ≤ 0) then
    Ok []
  else
    match entryPointId h with
    | None => Ok []
    | Some ep =>
        match nodes h !! ep with
        | None => Ok []
        | Some n =>
            if dimension_ok then
              s ← similarity (metric h) query (node_vector n);
              let fuel := size (nodes h) in
              start ← greedy_descent fuel (Z.to_nat (levelMax h)) (ep, s);
              let ef := Z.to_nat (Z.max k (efConstruction h)) in
              found ← beam_search (S fuel) ef
                        {| candidates := [start];
                           best := [start];
                           visited := {[ start.1 ]} |};
              Ok ((λ e, mkHit e.1 e.2) <$> take (Z.to_nat k) (ranked found))
            else Throw DimensionMismatch
        end
    end.
End Search.

(** Modelled from the spec: a call of [searchKNN] as a step of the object,
    giving the state after the call and the outcome.  Search is a query
    (section 6) and only reads the index. *)
Definition call_searchKNN (h : t) (query : vector) (k : Z)
  : t * result (list hit) :=
  (h, searchKNN h query k).

End HNSW.

(** ** The class [HNSWWithDB] ([db.ts]) *)

(** A JavaScript value of type [any] holding a payload of type [D]:
    either [undefined] or a payload. *)
Inductive any (D : Type) : Type :=
  | undefined
  | payload (x : D).
Arguments undefined {D}.
Arguments payload {D} x.

Module HNSWWithDB.
Section WithPayload.
Context {D : Type}.

(** An instance: the inherited state and [private db: Map<number, any>]. *)
Record t : Type := mk {
  base : HNSW.t;
  db : gmap Z (any D);
}.

(** The inherited methods, whose code is missing.  [addPoint] gives the
    state of the base object after the call and whether the call
    returned or threw; [searchKNN] is a query. *)
Variable addPoint : HNSW.t → Z → vector → HNSW.t * result unit.
Variable searchKNN : HNSW.t → vector → Z → result (list hit).

(**
<<
constructor(M = 16, efConstruction = 200, d: number | null = null, metric = 'cosine') {
  super(M, efConstruction, d, metric);
}
>>
    An argument that is left out is [None] and takes its default. *)
Definition new (M efConstruction : option Z) (d : option (option Z))
    (metric : option Metric) : t :=
  {| base := HNSW.new (default 16 M) (default 200 efConstruction)
                      (default None d) (default cosine metric);
     db := ∅ |}.

(**
<<
async addPointWithData(id, vector, data) {
  await this.addPoint(id, vector);
  this.db.set(id, data);
}
>> *)
Definition addPointWithData (I : t) (id : Z) (v : vector) (data : any D)
  : t * result unit :=
  let '(b, r) := addPoint (base I) id v in
  match r with
  | Throw e => ({| base := b; db := db I |}, Throw e)
  | Ok _ => ({| base := b; db := <[id := data]> (db I) |}, Ok ())
  end.

(** [getPointData(id) { return this.db.get(id); }] *)
Definition getPointData (I : t) (id : Z) : any D :=
  match db I !! id with
  | Some data => data
  | None => undefined
  end.

(** An entry [{ id, score, data }]. *)
Record hit_with_data : Type := mkHitWithData {
  hwd_id : Z;
  hwd_score : R;
  hwd_data : any D;
}.

(**
<<
searchKNNWithData(query, k) {
  const results = this.searchKNN(query, k);
  return results.map(result => ({ ...result, data: this.getPointData(result.id) }));
}
>> *)
Definition searchKNNWithData (I : t) (query : vector) (k : Z)
  : result (list hit_with_data) :=
  match searchKNN (base I) query k with
  | Throw e => Throw e
  | Ok results =>
      Ok ((λ result, {| hwd_id := hit_id result;
                        hwd_score := hit_score result;
                        hwd_data := getPointData I (hit_id result) |})
            <$> results)
  end.

(** The record of [toJSON]: the fields of the base record and [db].
    [json_db] is [None] for a record without a [db] field. *)
Record JSON : Type := mkJSON {
  json_base : HNSW.JSON;
  json_db : option (list (Z * any D));
}.

(**
<<
toJSON() {
  const baseJSON = super.toJSON();
  return { ...baseJSON, db: Array.from(this.db.entries()) };
}
>> *)
Definition toJSON (I : t) : JSON :=
  let baseJSON := HNSW.toJSON (base I) in
  {| json_base := baseJSON;
     json_db := Some (map_to_list (db I)) |}.

(**
<<
static fromJSON(json: any): HNSWWithDB {
  const hnsw = new HNSWWithDB(json.M, json.efConstruction);
  hnsw.levelMax = json.levelMax;
  hnsw.entryPointId = json.entryPointId;
  hnsw.nodes = new Map(
    json.nodes.map(([id, node]: [number, any]) => {
      return [id, { ...node, vector: new Float32Array(node.vector) }];
    }),
  );
  if (json.db) {
    hnsw.db = new Map(json.db);
  }
  return hnsw;
}
>>
    An array is truthy, so a record with a [db] field always takes the
    branch. *)
Definition fromJSON (json : JSON) : t :=
  let j := json_base json in
  let hnsw :=
    new (Some (HNSW.json_M j)) (Some (HNSW.json_efConstruction j))
        None None in
  let b := base hnsw in
  let b :=
    {| HNSW.M := HNSW.M b;
       HNSW.efConstruction := HNSW.efConstruction b;
       HNSW.d := HNSW.d b;
       HNSW.metric := HNSW.metric b;
       HNSW.levelMax := HNSW.json_levelMax j;
       HNSW.entryPointId := HNSW.json_entryPointId j;
       HNSW.nodes :=
         Map_from
           ((λ e, (e.1, {| node_id := node_id e.2;
                           node_vector := Float32Array_from (node_vector e.2);
                           node_neighbors := node_neighbors e.2 |}))
              <$> HNSW.json_nodes j) |} in
  match json_db json with
  | Some entries => {| base := b; db := Map_from entries |}
  | None => {| base := b; db := db hnsw |}
  end.

(** *** Histories

    The calls that write to an instance, and what a sequence of them
    leaves behind. *)
Inductive call : Type :=
  | AddPoint (id : Z) (v : vector)
  | AddPointWithData (id : Z) (v : vector) (data : any D).

Definition exec (I : t) (c : call) : t * result unit :=
  match c with
  | AddPoint id v =>
      let '(b, r) := addPoint (base I) id v in
      ({| base := b; db := db I |}, r)
  | AddPointWithData id v data => addPointWithData I id v data
  end.

Definition run (I : t) (cs : list call) : t :=
  fold_left (λ I c, (exec I c).1) cs I.

(** What call [c], with outcome [r], stored under [id]. *)
Definition stored_by (c : call) (r : result unit) (id : Z)
  : option (any D) :=
  match c, r with
  | AddPointWithData id' _ data, Ok _ =>
      if bool_decide (id' = id) then Some data else None
  | _, _ => None
  end.

(** The payload most recently stored under [id] by a completed
    [addPointWithData] when [cs] runs from [I], if there is one. *)
Fixpoint last_stored (I : t) (cs : list call) (id : Z) : option (any D) :=
  match cs with
  | [] => None
  | c :: cs =>
      let '(I', r) := exec I c in
      match last_stored I' cs id with
      | Some data => Some data
      | None => stored_by c r id
      end
  end.
End WithPayload.
Arguments t D : clear implicits.
Arguments JSON D : clear implicits.
Arguments call D : clear implicits.
Arguments hit_with_data D : clear implicits.
End HNSWWithDB.

(** An example behaviour for the inherited [addPoint], used only to run the
    statements below on concrete calls.  It is not the insertion algorithm
    of section 4.4: it makes the checks of section 7 (an id already
    present, a vector of the wrong dimension) and otherwise stores the
    vector as a node without edges, as step 1 of section 4.4 does for the
    first node. *)
Definition addPoint_unlinked (h : HNSW.t) (id : Z) (v : vector)
  : HNSW.t * result unit :=
  if bool_decide (is_Some (HNSW.nodes h !! id)) then (h, Throw DuplicateId)
  else if negb (HNSW.dimension_ok h v) then (h, Throw DimensionMismatch)
  else
    ({| HNSW.M := HNSW.M h;
        HNSW.efConstruction := HNSW.efConstruction h;
        HNSW.d := Some (Z.of_nat (length v));
        HNSW.metric := HNSW.metric h;
        HNSW.levelMax := HNSW.levelMax h;
        HNSW.entryPointId :=
          match HNSW.entryPointId h with
          | Some ep => Some ep
          | None => Some id
          end;
        HNSW.nodes :=
          <[id := {| node_id := id; node_vector := v; node_neighbors := [[]] |}]>
            (HNSW.nodes h) |},
     Ok ()).

(** The entry point has the dimension the index is fixed to (section 3:
    every vector of an index has [d] components). *)
Definition entry_has_dimension (h : HNSW.t) : Prop :=
  ∀ (n ep : Z) (node : Node),
    HNSW.d h = Some n → HNSW.entryPointId h = Some ep →
    HNSW.nodes h !! ep = Some node →
    Z.of_nat (length (node_vector node)) = n.

(** ** Example inputs *)

(** The index that [new HNSWWithDB(16, 200, null, 'euclidean')] becomes once
    the vector [(2, 0)] is added under id 0 with payload 7. *)
Definition euclidean_index : HNSWWithDB.t Z :=
  {| HNSWWithDB.base :=
       {| HNSW.M := 16;
          HNSW.efConstruction := 200;
          HNSW.d := Some 2;
          HNSW.metric := euclidean;
          HNSW.levelMax := 0;
          HNSW.entryPointId := Some 0;
          HNSW.nodes :=
            {[ 0 := {| node_id := 0;
                       node_vector := [2; 0]%R;
                       node_neighbors := [[]] |} ]} |};
     HNSWWithDB.db := {[ 0 := payload 7 ]} |}.

(** A record as [fromJSON] may be handed: the graph fields of an empty
    index, and a [db] list with the payload 1 under id 5. *)
Definition payload_record : HNSWWithDB.JSON Z :=
  {| HNSWWithDB.json_base :=
       {| HNSW.json_M := 16;
          HNSW.json_efConstruction := 200;
          HNSW.json_metric := cosine;
          HNSW.json_d := None;
          HNSW.json_levelMax := 0;
          HNSW.json_entryPointId := None;
          HNSW.json_nodes := [] |};
     HNSWWithDB.json_db := Some [(5, payload 1)] |}.

(** ** [l2Normalize] as it is computed *)

(** The arithmetic of the engine: a number is an IEEE 754 binary64 value,
    the operations round to nearest, ties to even, and a store into a
    [Float32Array] rounds the number to binary32.  An element of a
    [Float32Array] is a number that is a binary32 value. *)
Module IEEE.
Abbreviation number := spec_float.

Definition add : number → number → number := SFadd 53 1024.
Definition mul : number → number → number := SFmul 53 1024.
Definition div : number → number → number := SFdiv 53 1024.
Definition sqrt : number → number := SFsqrt 53 1024.

(** The conversion of a store into a [Float32Array] ([Math.fround]). *)
Definition fround (x : number) : number :=
  match x with
  | S754_finite s m e => binary_round 24 128 s m e
  | _ => x
  end.

(** [x || dflt] on numbers: [0], [-0] and [NaN] are falsy. *)
Definition js_or_number (x dflt : number) : number :=
  match x with
  | S754_zero _ | S754_nan => dflt
  | _ => x
  end.

(** The literals [0], [1] and [1e-9]; the last one is the binary64 value
    next to it, [0x1.12e0be826d695p-30]. *)
Definition number_0 : number := S754_zero false.
Definition number_1 : number := S754_finite false 4503599627370496 (-52).
Definition number_1e_9 : number := S754_finite false 4835703278458517 (-82).

(**
<<
function l2Normalize(v: Float32Array): Float32Array {
  let norm = 0;
  for (const x of v) norm += x * x;
  norm = 1 / Math.sqrt(norm || 1e-9);
  return v.map(x => x * norm) as Float32Array;
}
>>
    [map] on a [Float32Array] stores each product into a [Float32Array]. *)
Definition l2Normalize (v : list number) : list number :=
  let norm := fold_left (λ norm x, add norm (mul x x)) v number_0 in
  let norm := div number_1 (sqrt (js_or_number norm number_1e_9)) in
  (λ x, fround (mul x norm)) <$> v.

(** [0] and [-0]. *)
Definition is_zero (x : number) : Prop :=
  match x with
  | S754_zero _ => True
  | _ => False
  end.
End IEEE.

(** ** Text of a note ([blocksToText]) *)

(** An inline element of a block's content, as [blocksToText] tells them
    apart: an object whose [type] is ['text'], with its [text] field
    ([None] when the field is missing), or anything else (a link, a value
    that is no object). *)
Inductive inline : Type :=
  | InlineText (text : option string)
  | InlineOther.

(** The [content] of a block when it is there: an array of inline
    elements, or content that is no array (a table). *)
Inductive block_content : Type :=
  | InlineContent (inlines : list inline)
  | TableContent.

(** A block, reduced to what [blocksToText] reads of it: [content], which
    may be missing. *)
Record Block : Type := mkBlock {
  content : option block_content;
}.

(** The string ["\n"]. *)
Definition newline : string := String "010"%char EmptyString.

(**
<<
function blocksToText(blocks: Block[] | undefined): string {
  if (!blocks) return '';
  return blocks.map(block => {
    if (!block.content) return '';
    if (Array.isArray(block.content)) {
      return block.content.map(inline => {
        if (typeof inline === 'object' && inline !== null && 'type' in inline && inline.type === 'text') {
          return (inline as any).text || '';
        }
        return '';
      }).join('');
    }
    return '';
  }).join('\n');
}
>>
    [text || ''] is [text] unless [text] is missing or empty, and then it
    is the empty string.  [join] is [String.concat]. *)
Definition inline_text (i : inline) : string :=
  match i with
  | InlineText text => default EmptyString text
  | InlineOther => EmptyString
  end.

Definition block_text (block : Block) : string :=
  match content block with
  | None => EmptyString
  | Some (InlineContent inlines) =>
      String.concat EmptyString (inline_text <$> inlines)
  | Some TableContent => EmptyString
  end.

Definition blocksToText (blocks : option (list Block)) : string :=
  match blocks with
  | None => EmptyString
  | Some blocks => String.concat newline (block_text <$> blocks)
  end.

(** ** [String.prototype.trim]

    A string is a sequence of 8-bit characters.  Within that range the
    white space and line terminators of ECMAScript are the characters 9 to
    13, 32 and 160. *)
Definition is_white_space (c : ascii) : bool :=
  let n := Ascii.nat_of_ascii c in
  ((9 <=? n)%nat && (n <=? 13)%nat) || (n =? 32)%nat || (n =? 160)%nat.

Fixpoint drop_white_space (cs : list ascii) : list ascii :=
  match cs with
  | [] => []
  | c :: cs' => if is_white_space c then drop_white_space cs' else cs
  end.

Definition trim (s : string) : string :=
  String.string_of_list_ascii
    (rev (drop_white_space (rev (drop_white_space (String.list_ascii_of_string s))))).

(** [!s.trim()]: the empty string is the one falsy string. *)
Definition blank (s : string) : bool :=
  bool_decide (trim s = EmptyString).

(** ** A [Map] with string keys, in insertion order

    The service iterates over its [embeddings], so the order of the entries
    is kept: [set] replaces the value of a key where it stands and puts a
    new key last; [delete] takes the entry out. *)
Module JSMap.
Section Ops.
Context {V : Type}.

(** [m.get(key)], [None] being [undefined]. *)
Fixpoint get (key : string) (m : list (string * V)) : option V :=
  match m with
  | [] => None
  | (k, v) :: m' => if bool_decide (k = key) then Some v else get key m'
  end.

(** [m.set(key, value)]. *)
Fixpoint set (key : string) (value : V) (m : list (string * V))
  : list (string * V) :=
  match m with
  | [] => [(key, value)]
  | (k, v) :: m' =>
      if bool_decide (k = key) then (key, value) :: m'
      else (k, v) :: set key value m'
  end.

(** [m.delete(key)]. *)
Fixpoint delete (key : string) (m : list (string * V)) : list (string * V) :=
  match m with
  | [] => []
  | (k, v) :: m' =>
      if bool_decide (k = key) then m' else (k, v) :: delete key m'
  end.

(** [m.size]. *)
Definition size (m : list (string * V)) : Z := Z.of_nat (length m).

(** No key occurs twice, as in every [Map]. *)
Definition wf (m : list (string * V)) : Prop := NoDup m.*1.
End Ops.
End JSMap.

(** ** The semantic search service *)

(** A completed call: it returned a value or threw [e]. *)
Inductive completion (E A : Type) : Type :=
  | Normal (a : A)
  | Abrupt (e : E).
Arguments Normal {E A} a.
Arguments Abrupt {E A} e.

(** [interface NoteEmbedding]. *)
Record NoteEmbedding : Type := mkNoteEmbedding {
  ne_noteId : string;
  ne_title : string;
  ne_content : string;
  ne_embedding : vector;
}.

(** [interface SearchResult]. *)
Record SearchResult : Type := mkSearchResult {
  sr_noteId : string;
  sr_title : string;
  sr_content : string;
  sr_score : R;
}.

(** A row of the embeddings table as [loadEmbeddingsFromStore] reads it;
    [row_vecData] is [None] when the field is falsy. *)
Record EmbeddingRow (Blob : Type) : Type := mkEmbeddingRow {
  row_noteId : string;
  row_title : string;
  row_content : string;
  row_vecData : option Blob;
  row_vecDim : Z;
}.
Arguments mkEmbeddingRow {Blob}.
Arguments row_noteId {Blob}.
Arguments row_title {Blob}.
Arguments row_content {Blob}.
Arguments row_vecData {Blob}.
Arguments row_vecDim {Blob}.

(** What the service calls and does not define: the embedding service, the
    store, [blobToVec] and the methods of the index.  [W] is the state of
    the world outside the service, which a call may change; [E] is what a
    call may throw.  Each call either returns or throws.
    - [embeddingService_embed w texts]: [embeddingService.embed(texts)], giving the
      [vector] of its result;
    - [store_commit_embeddingRemoved w store noteId]:
      [store.commit(events.embeddingRemoved({ noteId }))];
    - [store_commit_noteEmbedded w store e]:
      [store.commit(events.noteEmbedded(..))] for the note, title, text and vector of [e], with the blob and the
      dates the statement computes;
    - [store_query_select w store]: [store.query(tables.embeddings.select())],
      [None] when the result is no array, a row being [None] when it is
      falsy;
    - [store_query_count w store]: [store.query(tables.embeddings.count())],
      [None] when the result is no number;
    - [hnswIndex_buildIndex] and [hnswIndex_searchKNN]: the methods of the index, the first
      giving the index after the call. *)
Class Collaborators (W StoreRef Blob E : Type) : Type := {
  embeddingService_ready : W → W * completion E unit;
  embeddingService_embed : W → list string → W * completion E vector;
  store_commit_embeddingRemoved : W → StoreRef → string → W * completion E unit;
  store_commit_noteEmbedded : W → StoreRef → NoteEmbedding → W * completion E unit;
  store_query_select :
    W → StoreRef → W * completion E (option (list (option (EmbeddingRow Blob))));
  store_query_count : W → StoreRef → W * completion E (option Z);
  blobToVec : Blob → Z → completion E vector;
  hnswIndex_buildIndex : HNSW.t → list (Z * vector) → HNSW.t * completion E unit;
  hnswIndex_searchKNN : HNSW.t → vector → Z → completion E (list hit);
}.

Module Service.
Section WithCollaborators.
Context {W StoreRef Blob E : Type} `{!Collaborators W StoreRef Blob E}.

(** The fields of [class SemanticSearchService]. *)
Record t : Type := mk {
  embeddings : list (string * NoteEmbedding);
  hnswIndex : option HNSW.t;
  noteIdToIndex : gmap string Z;
  indexToNoteId : gmap Z string;
  nextIndex : Z;
  isReady : bool;
  isInitialized : bool;
  storeRef : option StoreRef;
}.

(** [new SemanticSearchService()]. *)
Definition new : t :=
  {| embeddings := []; hnswIndex := None; noteIdToIndex := ∅;
     indexToNoteId := ∅; nextIndex := 0; isReady := false;
     isInitialized := false; storeRef := None |}.

Definition set_embeddings (m : list (string * NoteEmbedding)) (s : t) : t :=
  {| embeddings := m; hnswIndex := hnswIndex s;
     noteIdToIndex := noteIdToIndex s; indexToNoteId := indexToNoteId s;
     nextIndex := nextIndex s; isReady := isReady s;
     isInitialized := isInitialized s; storeRef := storeRef s |}.

Definition set_isReady (b : bool) (s : t) : t :=
  {| embeddings := embeddings s; hnswIndex := hnswIndex s;
     noteIdToIndex := noteIdToIndex s; indexToNoteId := indexToNoteId s;
     nextIndex := nextIndex s; isReady := b;
     isInitialized := isInitialized s; storeRef := storeRef s |}.

Definition set_isInitialized (b : bool) (s : t) : t :=
  {| embeddings := embeddings s; hnswIndex := hnswIndex s;
     noteIdToIndex := noteIdToIndex s; indexToNoteId := indexToNoteId s;
     nextIndex := nextIndex s; isReady := isReady s;
     isInitialized := b; storeRef := storeRef s |}.

Definition set_storeRef (store : option StoreRef) (s : t) : t :=
  {| embeddings := embeddings s; hnswIndex := hnswIndex s;
     noteIdToIndex := noteIdToIndex s; indexToNoteId := indexToNoteId s;
     nextIndex := nextIndex s; isReady := isReady s;
     isInitialized := isInitialized s; storeRef := store |}.

Definition set_hnswIndex (index : option HNSW.t) (s : t) : t :=
  {| embeddings := embeddings s; hnswIndex := index;
     noteIdToIndex := noteIdToIndex s; indexToNoteId := indexToNoteId s;
     nextIndex := nextIndex s; isReady := isReady s;
     isInitialized := isInitialized s; storeRef := storeRef s |}.

(** *** Calls

    A call runs on the world and the service and leaves both changed,
    with a completion.  Logging and toasts change neither and are left
    out.  A method runs from its call to its return without another call
    of the service in between. *)
Definition act (A : Type) : Type := W * t → (W * t) * completion E A.

Definition ret {A : Type} (a : A) : act A := λ st, (st, Normal a).

Definition bind {A B : Type} (m : act A) (k : A → act B) : act B :=
  λ st,
    let '(st', r) := m st in
    match r with
    | Normal a => k a st'
    | Abrupt e => (st', Abrupt e)
    end.

(** [try { body } catch (error) { handler }] *)
Definition try_catch {A : Type} (body : act A) (handler : E → act A) : act A :=
  λ st,
    let '(st', r) := body st in
    match r with
    | Normal a => (st', Normal a)
    | Abrupt e => handler e st'
    end.

(** Reading and changing [this]. *)
Definition this : act t := λ st, (st, Normal st.2).
Definition update (f : t → t) : act unit := λ st, ((st.1, f st.2), Normal ()).

(** A call that changes the world only. *)
Definition outside {A : Type} (call : W → W * completion E A) : act A :=
  λ st, let '(w, r) := call st.1 in ((w, st.2), r).

(** A call that involves no state. *)
Definition completed {A : Type} (r : completion E A) : act A := λ st, (st, r).

#[global] Instance act_ret : MRet act := @ret.
#[global] Instance act_bind : MBind act := λ A B k m, bind m k.

(**
<<
async initialize() {
  if (this.isReady) return;
  try {
    await embeddingService.ready();
    this.isReady = true;
  } catch (error) { console.error(..); }
}
>> *)
Definition initialize : act unit :=
  s ← this;
  if isReady s then ret ()
  else
    try_catch
      (outside embeddingService_ready;;
       update (set_isReady true))
      (λ _, ret ()).

(** The state of the loop of [buildHNSWIndex]: [nextIndex], the two maps
    and [indexData]. *)
Record indexing : Type := mkIndexing {
  ix_nextIndex : Z;
  ix_noteIdToIndex : gmap string Z;
  ix_indexToNoteId : gmap Z string;
  ix_indexData : list (Z * vector);
}.

(**
<<
const index = this.nextIndex++;
this.noteIdToIndex.set(noteId, index);
this.indexToNoteId.set(index, noteId);
indexData.push({ id: index, vector: embedding.embedding });
>> *)
Definition index_entry (ix : indexing) (entry : string * NoteEmbedding)
  : indexing :=
  let index := ix_nextIndex ix in
  {| ix_nextIndex := index + 1;
     ix_noteIdToIndex := <[entry.1 := index]> (ix_noteIdToIndex ix);
     ix_indexToNoteId := <[index := entry.1]> (ix_indexToNoteId ix);
     ix_indexData := ix_indexData ix ++ [(index, ne_embedding entry.2)] |}.

(**
<<
private buildHNSWIndex() {
  if (this.embeddings.size === 0) {
    this.hnswIndex = null;
    return;
  }
  this.hnswIndex = new HNSW(16, 200, null, 'cosine');
  this.noteIdToIndex.clear();
  this.indexToNoteId.clear();
  this.nextIndex = 0;
  const indexData: { id: number; vector: Float32Array }[] = [];
  for (const [noteId, embedding] of this.embeddings) { .. }
  this.hnswIndex.buildIndex(indexData);
}
>>
    The index object stays assigned when [buildIndex] throws. *)
Definition buildHNSWIndex : act unit :=
  s ← this;
  if bool_decide (JSMap.size (embeddings s) = 0) then
    update (set_hnswIndex None)
  else
    let ix :=
      fold_left index_entry (embeddings s)
        {| ix_nextIndex := 0; ix_noteIdToIndex := ∅; ix_indexToNoteId := ∅;
           ix_indexData := [] |} in
    let '(index, r) :=
      hnswIndex_buildIndex (HNSW.new 16 200 None cosine) (ix_indexData ix) in
    update (λ s,
      {| embeddings := embeddings s; hnswIndex := Some index;
         noteIdToIndex := ix_noteIdToIndex ix;
         indexToNoteId := ix_indexToNoteId ix;
         nextIndex := ix_nextIndex ix; isReady := isReady s;
         isInitialized := isInitialized s; storeRef := storeRef s |});;
    completed r.

(**
<<
const noteId = this.indexToNoteId.get(result.id);
if (noteId) {
  const embedding = this.embeddings.get(noteId);
  if (embedding) {
    results.push({ noteId: embedding.noteId, title: embedding.title,
                   content: embedding.content, score: result.score });
  }
}
>>
    The empty string is falsy. *)
Definition to_SearchResult (s : t) (result : hit) : option SearchResult :=
  match indexToNoteId s !! hit_id result with
  | None => None
  | Some noteId =>
      if bool_decide (noteId = EmptyString) then None
      else
        match JSMap.get noteId (embeddings s) with
        | None => None
        | Some embedding =>
            Some {| sr_noteId := ne_noteId embedding;
                    sr_title := ne_title embedding;
                    sr_content := ne_content embedding;
                    sr_score := hit_score result |}
        end
  end.

(**
<<
async search(query: string, limit = 10): Promise<SearchResult[]> {
  try {
    await this.initialize();
    if (!query.trim() || this.embeddings.size === 0 || !this.hnswIndex) {
      return [];
    }
    const { vector: queryVector } = await embeddingService.embed([`search_query: ${query}`]);
    const normalizedQueryVector = l2Normalize(queryVector);
    const hnswResults = this.hnswIndex.searchKNN(normalizedQueryVector, limit);
    const results: SearchResult[] = [];
    for (const result of hnswResults) { .. }
    return results;
  } catch (error) { .. return []; }
}
>>
    The three tests of the guard read the state only; the one for the
    index comes first here, as the index is needed afterwards. *)
Definition search (query : string) (limit : option Z)
  : act (list SearchResult) :=
  try_catch
    (initialize;;
     s ← this;
     match hnswIndex s with
     | Some index =>
         if blank query || bool_decide (JSMap.size (embeddings s) = 0)
         then ret []
         else
           queryVector ←
             outside (λ w, embeddingService_embed w
                             [String.append "search_query: " query]);
           let normalizedQueryVector := l2Normalize queryVector in
           hnswResults ←
             completed (hnswIndex_searchKNN index normalizedQueryVector
                          (default 10 limit));
           ret (omap (to_SearchResult s) hnswResults)
     | None => ret []
     end)
    (λ _, ret []).

(**
<<
this.embeddings.delete(noteId);
if (this.storeRef) {
  this.storeRef.commit(events.embeddingRemoved({ noteId }));
}
this.buildHNSWIndex();
>>
    the statements that [removeNote] and the empty branch of
    [addOrUpdateNote] share. *)
Definition remove_and_rebuild (noteId : string) : act unit :=
  update (λ s, set_embeddings (JSMap.delete noteId (embeddings s)) s);;
  s ← this;
  match storeRef s with
  | Some store => outside (λ w, store_commit_embeddingRemoved w store noteId)
  | None => ret ()
  end;;
  buildHNSWIndex.

(**
<<
removeNote(noteId: string) {
  try { .. } catch (error) { console.error(..); }
}
>> *)
Definition removeNote (noteId : string) : act unit :=
  try_catch (remove_and_rebuild noteId) (λ _, ret ()).

(**
<<
async addOrUpdateNote(noteId: string, title: string, content: Block[]) {
  try {
    await this.initialize();
    const textContent = blocksToText(content);
    if (!textContent.trim()) {
      .. remove, commit, rebuild ..
      return;
    }
    const { vector } = await embeddingService.embed([textContent]);
    const normalizedVector = l2Normalize(vector);
    this.embeddings.set(noteId, { noteId, title, content: textContent,
                                  embedding: normalizedVector });
    if (this.storeRef) {
      this.storeRef.commit(events.noteEmbedded({ .. }));
    }
    this.buildHNSWIndex();
  } catch (error) { console.error(..); toast.error(..); }
}
>> *)
Definition addOrUpdateNote (noteId title : string) (content : list Block)
  : act unit :=
  try_catch
    (initialize;;
     let textContent := blocksToText (Some content) in
     if blank textContent then remove_and_rebuild noteId
     else
       vector ← outside (λ w, embeddingService_embed w [textContent]);
       let normalizedVector := l2Normalize vector in
       let embedding :=
         {| ne_noteId := noteId; ne_title := title;
            ne_content := textContent; ne_embedding := normalizedVector |} in
       update (λ s, set_embeddings (JSMap.set noteId embedding (embeddings s)) s);;
       s ← this;
       match storeRef s with
       | Some store => outside (λ w, store_commit_noteEmbedded w store embedding)
       | None => ret ()
       end;;
       buildHNSWIndex)
    (λ _, ret ()).

(** [getEmbeddingCount() { return this.embeddings.size; }] *)
Definition getEmbeddingCount (s : t) : Z := JSMap.size (embeddings s).

(**
<<
getStoredEmbeddingCount(): number {
  if (!this.storeRef) return 0;
  try {
    const countResult = this.storeRef.query(tables.embeddings.count());
    return countResult || 0;
  } catch (error) { .. return 0; }
}
>> *)
Definition getStoredEmbeddingCount : act Z :=
  s ← this;
  match storeRef s with
  | None => ret 0
  | Some store =>
      try_catch
        (countResult ← outside (λ w, store_query_count w store);
         ret (default 0 countResult))
        (λ _, ret 0)
  end.

(**
<<
embeddingRows.forEach((row: any) => {
  try {
    if (!row || !row.vecData) { console.warn(..); return; }
    const embedding = blobToVec(row.vecData, row.vecDim);
    this.embeddings.set(row.noteId, { noteId: row.noteId, title: row.title,
                                      content: row.content, embedding });
  } catch (error) { console.error(..); }
});
>> *)
Definition load_row (m : list (string * NoteEmbedding))
    (row : option (EmbeddingRow Blob)) : list (string * NoteEmbedding) :=
  match row with
  | None => m
  | Some row =>
      match row_vecData row with
      | None => m
      | Some vecData =>
          match blobToVec vecData (row_vecDim row) with
          | Abrupt _ => m
          | Normal embedding =>
              JSMap.set (row_noteId row)
                {| ne_noteId := row_noteId row; ne_title := row_title row;
                   ne_content := row_content row; ne_embedding := embedding |}
                m
          end
      end
  end.

(**
<<
private loadEmbeddingsFromStore() {
  if (!this.storeRef) { console.warn(..); return; }
  try {
    const embeddingRows = this.storeRef.query(tables.embeddings.select());
    this.embeddings.clear();
    if (Array.isArray(embeddingRows)) {
      embeddingRows.forEach(..);
    }
    this.buildHNSWIndex();
  } catch (error) { console.error(..); }
}
>> *)
Definition loadEmbeddingsFromStore : act unit :=
  s ← this;
  match storeRef s with
  | None => ret ()
  | Some store =>
      try_catch
        (embeddingRows ← outside (λ w, store_query_select w store);
         update (set_embeddings []);;
         match embeddingRows with
         | Some rows =>
             update (λ s, set_embeddings (fold_left load_row rows (embeddings s)) s)
         | None => ret ()
         end;;
         buildHNSWIndex)
        (λ _, ret ())
  end.

(**
<<
setStore(store: any) {
  this.storeRef = store;
  if (!this.isInitialized && store) {
    this.loadEmbeddingsFromStore();
    this.isInitialized = true;
  }
}
>>
    [None] is a falsy [store]. *)
Definition setStore (store : option StoreRef) : act unit :=
  update (set_storeRef store);;
  s ← this;
  if negb (isInitialized s) && bool_decide (is_Some store) then
    loadEmbeddingsFromStore;;
    update (set_isInitialized true)
  else ret ().

(** A note as [syncAllNotes] receives it: [{ id, title, content }]. *)
Record Note : Type := mkNote {
  note_id : string;
  note_title : string;
  note_content : list Block;
}.

(**
<<
for (const note of notes) {
  try {
    await this.addOrUpdateNote(note.id, note.title, note.content);
    successCount++;
  } catch (error) { errorCount++; .. }
}
>>
    The two counters are only logged. *)
Fixpoint sync_notes (notes : list Note) : act unit :=
  match notes with
  | [] => ret ()
  | note :: notes =>
      try_catch
        (addOrUpdateNote (note_id note) (note_title note) (note_content note))
        (λ _, ret ());;
      sync_notes notes
  end.

(**
<<
async syncAllNotes(notes: Array<{ id: string; title: string; content: Block[] }>) {
  try {
    await this.initialize();
    this.embeddings.clear();
    let successCount = 0;
    let errorCount = 0;
    for (const note of notes) { .. }
    this.loadEmbeddingsFromStore();
    return this.embeddings.size;
  } catch (error) { .. return 0; }
}
>> *)
Definition syncAllNotes (notes : list Note) : act Z :=
  try_catch
    (initialize;;
     update (set_embeddings []);;
     sync_notes notes;;
     loadEmbeddingsFromStore;;
     s ← this;
     ret (JSMap.size (embeddings s)))
    (λ _, ret 0).

(** *** The public methods as calls *)
Inductive call : Type :=
  | SetStore (store : option StoreRef)
  | AddOrUpdateNote (noteId title : string) (content : list Block)
  | RemoveNote (noteId : string)
  | Search (query : string) (limit : option Z)
  | SyncAllNotes (notes : list Note)
  | GetStoredEmbeddingCount.

(** The world and the service after a call. *)
Definition exec (c : call) (st : W * t) : W * t :=
  match c with
  | SetStore store => (setStore store st).1
  | AddOrUpdateNote noteId title content =>
      (addOrUpdateNote noteId title content st).1
  | RemoveNote noteId => (removeNote noteId st).1
  | Search query limit => (search query limit st).1
  | SyncAllNotes notes => (syncAllNotes notes st).1
  | GetStoredEmbeddingCount => (getStoredEmbeddingCount st).1
  end.

Definition run (cs : list call) (st : W * t) : W * t :=
  fold_left (λ st c, exec c st) cs st.

(** The notes have distinct ids, every record carries the id it is stored
    under, and the two index maps are inverse to each other. *)
Definition consistent (s : t) : Prop :=
  JSMap.wf (embeddings s) ∧
  (∀ k e, (k, e) ∈ embeddings s → ne_noteId e = k) ∧
  (∀ noteId (j : Z),
     noteIdToIndex s !! noteId = Some j ↔ indexToNoteId s !! j = Some noteId).

(** A call keeps a property of the service, however it completes. *)
Definition keeps (P : t → Prop) {A : Type} (m : act A) : Prop :=
  ∀ w s, P s → P (m (w, s)).1.2.

(** The notes are among those of [ids], and the store is [store]. *)
Definition within (ids : list string) (store : option StoreRef) (s : t)
  : Prop :=
  (∀ k, k ∈ (embeddings s).*1 → k ∈ ids) ∧ storeRef s = store.

(** A call returns: it does not throw. *)
Definition returns {A : Type} (m : act A) : Prop :=
  ∀ st, ∃ a, (m st).2 = Normal a.
End WithCollaborators.
Arguments t StoreRef : clear implicits.
Arguments call StoreRef : clear implicits.
End Service.

(** A block without text: no content, a table, or inline content none of
    whose elements is a text with characters. *)
Definition textless (block : Block) : Prop :=
  match content block with
  | Some (InlineContent inlines) =>
      Forall (λ i, inline_text i = EmptyString) inlines
  | _ => True
  end.

(** ** Example collaborators and services *)

(** Collaborators to run the statements on: the world has no state, a
    store is the list of rows its query returns ([None] for a store whose
    query throws), a blob is the vector it decodes to when the dimension
    agrees, the embedding service throws on the text ["?"] and returns
    [(3, 4)] otherwise, the index keeps what it is given and answers every
    query with the ids 0 and 7. *)
Definition example_collaborators :
  Collaborators unit (option (list (option (EmbeddingRow vector)))) vector unit :=
  {| embeddingService_ready := λ w, (w, Normal ());
     embeddingService_embed := λ w texts,
       (w, if bool_decide (texts = ["?"%string]) then Abrupt ()
           else Normal [3; 4]%R);
     store_commit_embeddingRemoved := λ w _ _, (w, Normal ());
     store_commit_noteEmbedded := λ w _ _, (w, Normal ());
     store_query_select := λ w store,
       (w, match store with
           | Some rows => Normal (Some rows)
           | None => Abrupt ()
           end);
     store_query_count := λ w store,
       (w, match store with
           | Some rows => Normal (Some (Z.of_nat (length rows)))
           | None => Abrupt ()
           end);
     blobToVec := λ blob dim,
       if bool_decide (Z.of_nat (length blob) = dim) then Normal blob
       else Abrupt ();
     hnswIndex_buildIndex := λ h data, (h, Normal ());
     hnswIndex_searchKNN := λ h q k,
       Normal [mkHit 0 1%R; mkHit 7 (1 / 2)%R] |}.

Definition example_note_a : NoteEmbedding :=
  {| ne_noteId := "a"; ne_title := "A"; ne_content := "alpha";
     ne_embedding := [1; 0]%R |}.

Definition example_note_b : NoteEmbedding :=
  {| ne_noteId := "b"; ne_title := "B"; ne_content := "beta";
     ne_embedding := [0; 1]%R |}.

(** A service that holds two notes and has no store. *)
Definition example_service
  : Service.t (option (list (option (EmbeddingRow vector)))) :=
  Service.set_embeddings [("a"%string, example_note_a); ("b"%string, example_note_b)]
    Service.new.

(** A paragraph with the text ["hi"], and rows of a store: one good row,
    a missing row, a row without data and a row of the wrong dimension. *)
Definition example_blocks : list Block :=
  [mkBlock (Some (InlineContent [InlineText (Some "hi"%string)]))].

Definition example_rows : list (option (EmbeddingRow vector)) :=
  [Some (mkEmbeddingRow "a"%string "A"%string "alpha"%string (Some [1; 0]%R) 2);
   None;
   Some (mkEmbeddingRow "b"%string "B"%string "beta"%string None 2);
   Some (mkEmbeddingRow "c"%string "C"%string "gamma"%string (Some [1; 0]%R) 3)].

(** Collaborators with a store that keeps what is committed to it: the
    world is the table of rows, [noteEmbedded] puts the row of the note
    in the place of the rows with its id, [embeddingRemoved] deletes the
    rows with the id, and the queries read the table.  The embedding
    service, [blobToVec] and the index are those of
    [example_collaborators]. *)
Definition recording_collaborators :
  Collaborators (list (option (EmbeddingRow vector))) unit vector unit :=
  {| embeddingService_ready := λ w, (w, Normal ());
     embeddingService_embed := λ w texts,
       (w, if bool_decide (texts = ["?"%string]) then Abrupt ()
           else Normal [3; 4]%R);
     store_commit_embeddingRemoved := λ w _ noteId,
       (filter (λ row, row_noteId <$> row ≠ Some noteId) w, Normal ());
     store_commit_noteEmbedded := λ w _ e,
       (filter (λ row, row_noteId <$> row ≠ Some (ne_noteId e)) w
          ++ [Some (mkEmbeddingRow (ne_noteId e) (ne_title e) (ne_content e)
                      (Some (ne_embedding e))
                      (Z.of_nat (length (ne_embedding e))))],
        Normal ());
     store_query_select := λ w _, (w, Normal (Some w));
     store_query_count := λ w _, (w, Normal (Some (Z.of_nat (length w))));
     blobToVec := λ blob dim,
       if bool_decide (Z.of_nat (length blob) = dim) then Normal blob
       else Abrupt ();
     hnswIndex_buildIndex := λ h data, (h, Normal ());
     hnswIndex_searchKNN := λ h q k,
       Normal [mkHit 0 1%R; mkHit 7 (1 / 2)%R] |}.

(** A service that holds two notes and has such a store, in which they
    are not. *)
Definition recording_service : Service.t unit :=
  Service.set_storeRef (Some ())
    (Service.set_embeddings
       [("a"%string, example_note_a); ("b"%string, example_note_b)]
       Service.new).

(** * Properties *)

(** ** Maps and their entry lists *)
Section MapFrom.
Context {V : Type}.

Lemma fold_insert_union (entries : list (Z * V)) (m0 : gmap Z V) :
  NoDup entries.*1 →
  fold_left (λ m e, <[e.1 := e.2]> m) entries m0 = list_to_map entries ∪ m0.
Proof.
  revert m0. induction entries as [|[k v] entries IH]; intros m0 Hnd.
  - simpl. by rewrite (left_id_L ∅ (∪)).
  - apply NoDup_cons in Hnd as [Hk Hnd]. simpl.
    rewrite IH by done. rewrite <- insert_union_l.
    symmetry. apply insert_union_r.
    by apply not_elem_of_list_to_map_1.
Qed.

(** Rebuilding a map from its own entries gives the map back. *)
Lemma Map_from_entries (m : gmap Z V) : Map_from (map_to_list m) = m.
Proof.
  unfold Map_from. rewrite fold_insert_union by apply NoDup_fst_map_to_list.
  by rewrite (right_id_L ∅ (∪)), list_to_map_to_list.
Qed.
End MapFrom.

(** ** Normalization to unit length *)
Section L2Normalize.
Local Open Scope R_scope.

Lemma sum_squares_cons (x : R) (v : vector) :
  sum_squares (x :: v) = x * x + sum_squares v.
Proof. reflexivity. Qed.

Lemma fold_left_squares (v : vector) (a : R) :
  fold_left (λ norm x, norm + x * x) v a = a + sum_squares v.
Proof.
  revert a. induction v as [|x v IH]; intros a.
  - unfold sum_squares. simpl. lra.
  - rewrite sum_squares_cons. simpl. rewrite IH. lra.
Qed.

Lemma sum_squares_nonneg (v : vector) : 0 <= sum_squares v.
Proof.
  induction v as [|x v IH].
  - unfold sum_squares. simpl. lra.
  - rewrite sum_squares_cons. nra.
Qed.

Lemma sum_squares_scale (c : R) (v : vector) :
  sum_squares ((λ x, x * c) <$> v) = c * c * sum_squares v.
Proof.
  induction v as [|x v IH].
  - unfold sum_squares. simpl. lra.
  - rewrite fmap_cons, !sum_squares_cons, IH. lra.
Qed.

Lemma l2Normalize_unfold (v : vector) :
  sum_squares v ≠ 0 →
  l2Normalize v = (λ x, x * (1 / euclidean_norm v)) <$> v.
Proof.
  intros Hs. unfold l2Normalize, js_or_number, euclidean_norm.
  rewrite fold_left_squares, Rplus_0_l.
  destruct (Req_dec_T (sum_squares v) 0) as [E|_]; [contradiction|done].
Qed.

Lemma euclidean_norm_nonzero (v : vector) :
  euclidean_norm v ≠ 0 → 0 < sum_squares v.
Proof.
  intros Hn. destruct (Rle_lt_or_eq_dec _ _ (sum_squares_nonneg v)) as [|E];
    [done|].
  exfalso. apply Hn. unfold euclidean_norm. rewrite <- E. apply sqrt_0.
Qed.

(** C8. For a vector [v] whose Euclidean norm is not zero, [l2Normalize v]
    has the length of [v], its [i]-th component is [v[i]] divided by the
    Euclidean norm of [v], and its own Euclidean norm is 1 (exact real
    arithmetic). *)
Theorem l2Normalize_unit (v : vector) :
  euclidean_norm v ≠ 0 →
  length (l2Normalize v) = length v ∧
  (∀ i : nat, l2Normalize v !! i = (λ x, x / euclidean_norm v) <$> (v !! i)) ∧
  euclidean_norm (l2Normalize v) = 1.
Proof.
  intros Hn. pose proof (euclidean_norm_nonzero v Hn) as Hpos.
  rewrite l2Normalize_unfold by lra.
  split; [by rewrite length_fmap|]. split.
  - intros i. rewrite list_lookup_fmap. destruct (v !! i); simpl; [|done].
    f_equal. unfold Rdiv. ring.
  - unfold euclidean_norm at 1. rewrite sum_squares_scale.
    replace (1 / euclidean_norm v * (1 / euclidean_norm v) * sum_squares v)
      with 1; [apply sqrt_1|].
    unfold euclidean_norm in *.
    rewrite <- (sqrt_sqrt (sum_squares v)) at 3 by lra.
    field. exact Hn.
Qed.

Lemma l2Normalize_unit_witness :
  euclidean_norm [3; 4] ≠ 0 ∧ euclidean_norm (l2Normalize [3; 4]) = 1.
Proof.
  assert (H : euclidean_norm [3; 4] ≠ 0).
  { unfold euclidean_norm, sum_squares. simpl.
    replace (3 * 3 + (4 * 4 + 0)) with (5 * 5) by lra.
    rewrite sqrt_square; lra. }
  split; [exact H|]. exact (proj2 (proj2 (l2Normalize_unit [3; 4] H))).
Defined.

(** The zero vector takes the [1e-9] fallback and stays the zero vector. *)
Example l2Normalize_zero : l2Normalize [0; 0] = [0; 0].
Proof.
  unfold l2Normalize, js_or_number. simpl.
  destruct (Req_dec_T (0 + 0 * 0 + 0 * 0) 0) as [_|Hne]; [|exfalso; lra].
  f_equal; [|f_equal]; ring.
Qed.

Example l2Normalize_3_4 : l2Normalize [3; 4] = [3 / 5; 4 / 5].
Proof.
  rewrite l2Normalize_unfold.
  - unfold euclidean_norm, sum_squares. simpl.
    replace (3 * 3 + (4 * 4 + 0)) with (5 * 5) by lra.
    rewrite sqrt_square by lra. f_equal; [|f_equal]; lra.
  - unfold sum_squares. simpl. lra.
Qed.
End L2Normalize.

(** ** Search on the modelled base class *)
Section SearchFacts.

Lemma cannot_beat_self (c : Z * R) : HNSW.cannot_beat c [c] = false.
Proof.
  unfold HNSW.cannot_beat. simpl.
  destruct (Rlt_dec c.2 c.2) as [Hlt|_]; [|done].
  exfalso. lra.
Qed.

Lemma beam_search_isolated (h : HNSW.t) (q : vector) (fuel ef : nat)
    (c : Z * R) (seen : gset Z) :
  HNSW.neighborsAt h c.1 0 = [] →
  HNSW.beam_search h q (S (S fuel)) ef
    {| HNSW.candidates := [c]; HNSW.best := [c]; HNSW.visited := seen |}
  = Ok [c].
Proof.
  intros Hnone. simpl. rewrite cannot_beat_self, Hnone. reflexivity.
Qed.

(** An index of one node without edges answers with that node. *)
Lemma searchKNN_single (h : HNSW.t) (q : vector) (k id : Z) (n : Node) (s : R) :
  HNSW.nodes h = {[ id := n ]} →
  HNSW.entryPointId h = Some id →
  HNSW.levelMax h = 0 →
  node_neighbors n !! 0%nat = Some [] →
  HNSW.dimension_ok h q = true →
  0 < k →
  similarity (HNSW.metric h) q (node_vector n) = Ok s →
  HNSW.searchKNN h q k = Ok [mkHit id s].
Proof.
  intros Hn Hep Hl Hnb Hd Hk Hs. unfold HNSW.searchKNN.
  rewrite Hn, map_size_singleton, Hep, lookup_singleton_eq, Hd, Hs, Hl.
  rewrite bool_decide_eq_false_2 by done.
  rewrite bool_decide_eq_false_2 by lia.
  change (Z.to_nat 0) with O.
  cbn [orb mbind result_bind HNSW.greedy_descent].
  rewrite beam_search_isolated.
  - unfold mbind, result_bind. cbn [HNSW.ranked fold_left HNSW.insert_ranked].
    rewrite take_ge by (simpl; lia). reflexivity.
  - unfold HNSW.neighborsAt. simpl. by rewrite Hn, lookup_singleton_eq, Hnb.
Qed.

Lemma similarity_cosine_example :
  similarity cosine [1; 0]%R [2; 0]%R = Ok 1%R.
Proof.
  unfold similarity. rewrite bool_decide_eq_true_2 by reflexivity.
  f_equal. unfold cosineSimilarity, euclidean_norm, dot, sum_squares. simpl.
  replace (1 * 1 + (0 * 0 + 0))%R with 1%R by lra.
  replace (2 * 2 + (0 * 0 + 0))%R with (2 * 2)%R by lra.
  rewrite sqrt_1, sqrt_square by lra.
  destruct (Req_dec_T (1 * 2) 0) as [E|_]; [exfalso; lra|]. lra.
Qed.

Lemma similarity_euclidean_example :
  similarity euclidean [1; 0]%R [2; 0]%R = Ok (1 / 2)%R.
Proof.
  unfold similarity. rewrite bool_decide_eq_true_2 by reflexivity.
  f_equal. unfold euclideanSimilarity, distance, sum_squares. simpl.
  replace ((1 - 2) * (1 - 2) + ((0 - 0) * (0 - 0) + 0))%R with 1%R by lra.
  rewrite sqrt_1. lra.
Qed.

(** C7. On an index without nodes, and for [k ≤ 0] on any index, a call
    of [searchKNN] returns the empty list: it does not throw, and the
    index after the call is the index before it. *)
Theorem searchKNN_empty_or_nonpositive (h : HNSW.t) (q : vector) (k : Z) :
  HNSW.nodes h = ∅ ∨ k ≤ 0 →
  HNSW.call_searchKNN h q k = (h, Ok []).
Proof.
  intros Hcase. unfold HNSW.call_searchKNN, HNSW.searchKNN. f_equal.
  destruct Hcase as [Hempty|Hk].
  - rewrite Hempty, map_size_empty.
    by rewrite bool_decide_eq_true_2.
  - rewrite (bool_decide_eq_true_2 (k ≤ 0)) by done.
    by rewrite orb_true_r.
Qed.

Lemma searchKNN_empty_or_nonpositive_witness :
  HNSW.call_searchKNN (HNSWWithDB.base euclidean_index) [1; 0]%R 0
  = (HNSWWithDB.base euclidean_index, Ok []).
Proof.
  apply (searchKNN_empty_or_nonpositive
           (HNSWWithDB.base euclidean_index) [1; 0]%R 0).
  right. lia.
Defined.

End SearchFacts.

(** ** What the search reads *)
Section SameGraph.
Variables (h h' : HNSW.t) (q : vector).
Hypothesis Hnodes : HNSW.nodes h = HNSW.nodes h'.
Hypothesis Hmetric : HNSW.metric h = HNSW.metric h'.

Lemma neighborsAt_same (id : Z) (layer : nat) :
  HNSW.neighborsAt h id layer = HNSW.neighborsAt h' id layer.
Proof. unfold HNSW.neighborsAt. by rewrite Hnodes. Qed.

Lemma scored_same (ids : list Z) : HNSW.scored h q ids = HNSW.scored h' q ids.
Proof.
  induction ids as [|id ids IH]; [done|].
  simpl. by rewrite Hnodes, Hmetric, IH.
Qed.

Lemma greedy_walk_same (fuel layer : nat) (cur : Z * R) :
  HNSW.greedy_walk h q fuel layer cur = HNSW.greedy_walk h' q fuel layer cur.
Proof.
  revert cur. induction fuel as [|fuel IH]; intros cur; [done|].
  simpl. rewrite neighborsAt_same, scored_same.
  destruct (HNSW.scored h' q _) as [nbrs|e]; [|done]. simpl.
  by destruct (Rlt_dec _ _).
Qed.

Lemma greedy_descent_same (fuel layer : nat) (cur : Z * R) :
  HNSW.greedy_descent h q fuel layer cur
  = HNSW.greedy_descent h' q fuel layer cur.
Proof.
  revert cur. induction layer as [|layer IH]; intros cur; [done|].
  simpl. rewrite greedy_walk_same.
  destruct (HNSW.greedy_walk h' q _ _ _) as [next|e]; [|done]. apply IH.
Qed.

Lemma beam_search_same (fuel ef : nat) (st : HNSW.beam) :
  HNSW.beam_search h q fuel ef st = HNSW.beam_search h' q fuel ef st.
Proof.
  revert st. induction fuel as [|fuel IH]; intros st; [done|].
  simpl. destruct (HNSW.pop_max _) as [[c rest]|]; [|done].
  destruct (HNSW.cannot_beat _ _); [done|].
  rewrite neighborsAt_same, scored_same.
  destruct (HNSW.scored h' q _) as [nbrs|e]; [|done]. apply IH.
Qed.
End SameGraph.

(** Forgetting the fixed dimension does not change a search, as long as the
    entry point has that dimension: a query of another length fails either
    way. *)
Lemma searchKNN_forget_dimension (h : HNSW.t) (q : vector) (k : Z) :
  entry_has_dimension h →
  HNSW.searchKNN
    {| HNSW.M := HNSW.M h; HNSW.efConstruction := HNSW.efConstruction h;
       HNSW.d := None; HNSW.metric := HNSW.metric h;
       HNSW.levelMax := HNSW.levelMax h;
       HNSW.entryPointId := HNSW.entryPointId h;
       HNSW.nodes := HNSW.nodes h |} q k
  = HNSW.searchKNN h q k.
Proof.
  intros Hdim. set (h' := HNSW.mk _ _ _ _ _ _ _).
  unfold HNSW.searchKNN. change (HNSW.nodes h') with (HNSW.nodes h).
  change (HNSW.entryPointId h') with (HNSW.entryPointId h).
  change (HNSW.metric h') with (HNSW.metric h).
  change (HNSW.levelMax h') with (HNSW.levelMax h).
  change (HNSW.efConstruction h') with (HNSW.efConstruction h).
  change (HNSW.dimension_ok h' q) with true.
  destruct (_ || _); [done|].
  destruct (HNSW.entryPointId h) as [ep|] eqn:Hep; [|done].
  destruct (HNSW.nodes h !! ep) as [node|] eqn:Hnode; [|done].
  destruct (HNSW.dimension_ok h q) eqn:Hok.
  - destruct (similarity _ _ _) as [s|e]; [|done]. cbn [mbind result_bind].
    rewrite (greedy_descent_same h' h) by done.
    destruct (HNSW.greedy_descent h q _ _ _) as [start|e]; [|done].
    cbn [mbind result_bind].
    by rewrite (beam_search_same h' h).
  - unfold HNSW.dimension_ok in Hok.
    destruct (HNSW.d h) as [n|] eqn:Hd; [|done].
    apply bool_decide_eq_false in Hok.
    unfold similarity. rewrite bool_decide_eq_false_2; [done|].
    intros Hlen. apply Hok. rewrite Hlen. by eapply Hdim.
Qed.

(** ** Construction and serialization of [HNSWWithDB] *)
Section Serialization.
Context {D : Type}.
Implicit Types (I : HNSWWithDB.t D) (json : HNSWWithDB.JSON D).

(** C6. Without arguments the constructor yields [M = 16],
    [efConstruction = 200], [d = null] and [metric = cosine]; with
    arguments it stores exactly the given [M], [efConstruction], [d] and
    [metric]. *)
Theorem constructor_parameters (M efConstruction : Z) (d : option Z)
    (metric : Metric) :
  let I0 : HNSWWithDB.t D := HNSWWithDB.new None None None None in
  let I1 : HNSWWithDB.t D :=
    HNSWWithDB.new (Some M) (Some efConstruction) (Some d) (Some metric) in
  (HNSW.M (HNSWWithDB.base I0) = 16 ∧
   HNSW.efConstruction (HNSWWithDB.base I0) = 200 ∧
   HNSW.d (HNSWWithDB.base I0) = None ∧
   HNSW.metric (HNSWWithDB.base I0) = cosine) ∧
  (HNSW.M (HNSWWithDB.base I1) = M ∧
   HNSW.efConstruction (HNSWWithDB.base I1) = efConstruction ∧
   HNSW.d (HNSWWithDB.base I1) = d ∧
   HNSW.metric (HNSWWithDB.base I1) = metric).
Proof. repeat split. Qed.

(** C9. [fromJSON] builds the instance from the record's [M] and
    [efConstruction] alone: whatever the record says, the result has the
    default metric [cosine] and dimension [d = null]; in particular this
    holds for the record of any instance. *)
Theorem fromJSON_default_metric_and_dimension json I :
  let restored := HNSWWithDB.base (HNSWWithDB.fromJSON json) in
  (HNSW.M restored = HNSW.json_M (HNSWWithDB.json_base json) ∧
   HNSW.efConstruction restored
     = HNSW.json_efConstruction (HNSWWithDB.json_base json) ∧
   HNSW.metric restored = cosine ∧
   HNSW.d restored = None) ∧
  (HNSW.metric (HNSWWithDB.base (HNSWWithDB.fromJSON (HNSWWithDB.toJSON I)))
     = cosine ∧
   HNSW.d (HNSWWithDB.base (HNSWWithDB.fromJSON (HNSWWithDB.toJSON I)))
     = None).
Proof.
  unfold HNSWWithDB.fromJSON.
  destruct (HNSWWithDB.json_db json); simpl; repeat split.
Qed.

Lemma restored_nodes (ns : gmap Z Node) :
  Map_from
    ((λ e : Z * Node,
        (e.1, {| node_id := node_id e.2;
                 node_vector := Float32Array_from (node_vector e.2);
                 node_neighbors := node_neighbors e.2 |}))
       <$> map_to_list ns) = ns.
Proof.
  rewrite <- (Map_from_entries ns) at 2. f_equal.
  rewrite <- (list_fmap_id (map_to_list ns)) at 2.
  apply list_fmap_ext. intros _ [id [i v nb]] _. reflexivity.
Qed.

(** What a round trip keeps: everything except [metric] and [d]. *)
Lemma fromJSON_toJSON I :
  HNSWWithDB.fromJSON (HNSWWithDB.toJSON I) =
  {| HNSWWithDB.base :=
       {| HNSW.M := HNSW.M (HNSWWithDB.base I);
          HNSW.efConstruction := HNSW.efConstruction (HNSWWithDB.base I);
          HNSW.d := None;
          HNSW.metric := cosine;
          HNSW.levelMax := HNSW.levelMax (HNSWWithDB.base I);
          HNSW.entryPointId := HNSW.entryPointId (HNSWWithDB.base I);
          HNSW.nodes := HNSW.nodes (HNSWWithDB.base I) |};
     HNSWWithDB.db := HNSWWithDB.db I |}.
Proof.
  unfold HNSWWithDB.fromJSON, HNSWWithDB.toJSON, HNSW.toJSON. simpl.
  by rewrite restored_nodes, Map_from_entries.
Qed.

(** An index with the default metric and no fixed dimension is restored
    as it was, and so answers every search as before. *)
Lemma fromJSON_toJSON_default I :
  HNSW.metric (HNSWWithDB.base I) = cosine →
  HNSW.d (HNSWWithDB.base I) = None →
  HNSWWithDB.fromJSON (HNSWWithDB.toJSON I) = I.
Proof.
  intros Hm Hd. rewrite fromJSON_toJSON.
  destruct I as [[M ef d m l ep ns] db]. simpl in *. by subst.
Qed.

(** C2. The payload map survives the round trip: [getPointData] answers
    the same for every id, and the entries that [toJSON] writes into the
    record are exactly the entries of the payload map, each of which
    [fromJSON] restores. *)
Theorem payload_roundtrip I (id : Z) :
  let restored := HNSWWithDB.fromJSON (HNSWWithDB.toJSON I) in
  HNSWWithDB.getPointData restored id = HNSWWithDB.getPointData I id ∧
  HNSWWithDB.db restored !! id = HNSWWithDB.db I !! id ∧
  ∃ entries,
    HNSWWithDB.json_db (HNSWWithDB.toJSON I) = Some entries ∧
    ∀ data, (id, data) ∈ entries ↔ HNSWWithDB.db I !! id = Some data.
Proof.
  cbv zeta. rewrite fromJSON_toJSON. split; [reflexivity|]. split; [reflexivity|].
  exists (map_to_list (HNSWWithDB.db I)). split; [done|].
  intros data. apply elem_of_map_to_list.
Qed.

(** An index with the metric [cosine] answers every search after the round
    trip as before. *)
Lemma roundtrip_search_cosine I (q : vector) (k : Z) :
  HNSW.metric (HNSWWithDB.base I) = cosine →
  entry_has_dimension (HNSWWithDB.base I) →
  HNSW.searchKNN (HNSWWithDB.base (HNSWWithDB.fromJSON (HNSWWithDB.toJSON I))) q k
  = HNSW.searchKNN (HNSWWithDB.base I) q k.
Proof.
  intros Hm Hdim. rewrite fromJSON_toJSON. cbn [HNSWWithDB.base].
  rewrite <- Hm. by apply searchKNN_forget_dimension.
Qed.

End Serialization.

(** C1. The round trip does not keep the search results of an index built
    with the euclidean metric.  On [euclidean_index], the query [(1, 0)]
    with [k = 1] scores node 0 with [1/2] (euclidean, distance 1); after
    [fromJSON (toJSON _)] the index has the metric [cosine] and scores the
    same node with 1. *)
Theorem roundtrip_changes_euclidean_search :
  let restored := HNSWWithDB.fromJSON (HNSWWithDB.toJSON euclidean_index) in
  HNSW.searchKNN (HNSWWithDB.base euclidean_index) [1; 0]%R 1
    = Ok [mkHit 0 (1 / 2)%R] ∧
  HNSW.searchKNN (HNSWWithDB.base restored) [1; 0]%R 1
    = Ok [mkHit 0 1%R] ∧
  HNSW.searchKNN (HNSWWithDB.base restored) [1; 0]%R 1
    ≠ HNSW.searchKNN (HNSWWithDB.base euclidean_index) [1; 0]%R 1.
Proof.
  cbv zeta.
  assert (H1 : HNSW.searchKNN (HNSWWithDB.base euclidean_index) [1; 0]%R 1
               = Ok [mkHit 0 (1 / 2)%R]).
  { eapply searchKNN_single; try reflexivity.
    simpl. exact similarity_euclidean_example. }
  assert (H2 : HNSW.searchKNN
                 (HNSWWithDB.base
                    (HNSWWithDB.fromJSON (HNSWWithDB.toJSON euclidean_index)))
                 [1; 0]%R 1
               = Ok [mkHit 0 1%R]).
  { rewrite fromJSON_toJSON.
    eapply searchKNN_single; try reflexivity.
    simpl. exact similarity_cosine_example. }
  split; [exact H1|]. split; [exact H2|].
  rewrite H1, H2. intros E. inversion E as [Hscore]. lra.
Qed.

Lemma searchKNN_euclidean_index :
  HNSW.searchKNN (HNSWWithDB.base euclidean_index) [1; 0]%R 1
  = Ok [mkHit 0 (1 / 2)%R].
Proof.
  eapply searchKNN_single; try reflexivity.
  simpl. exact similarity_euclidean_example.
Qed.

(** [euclidean_index] is what the calls in its description produce. *)
Lemma euclidean_index_built :
  HNSWWithDB.run addPoint_unlinked
    (HNSWWithDB.new (Some 16) (Some 200) None (Some euclidean))
    [HNSWWithDB.AddPointWithData 0 [2; 0]%R (payload 7)]
  = euclidean_index.
Proof. reflexivity. Qed.

(** ** The payload map *)
Section Payload.
Context {D : Type}.
Variable addPoint : HNSW.t → Z → vector → HNSW.t * result unit.
Variable searchKNN : HNSW.t → vector → Z → result (list hit).
Implicit Types (I : HNSWWithDB.t D) (c : HNSWWithDB.call D)
  (cs : list (HNSWWithDB.call D)) (data : any D).

Lemma getPointData_lookup I (id : Z) :
  HNSWWithDB.getPointData I id = default undefined (HNSWWithDB.db I !! id).
Proof. unfold HNSWWithDB.getPointData. by destruct (_ !! _). Qed.

(** One call changes the entry of [id] only by storing under [id]. *)
Lemma exec_db I c (id : Z) :
  HNSWWithDB.db (HNSWWithDB.exec addPoint I c).1 !! id =
  match HNSWWithDB.stored_by c (HNSWWithDB.exec addPoint I c).2 id with
  | Some data => Some data
  | None => HNSWWithDB.db I !! id
  end.
Proof.
  destruct c as [id' v|id' v data]; simpl.
  - by destruct (addPoint (HNSWWithDB.base I) id' v) as [b [[]|e]].
  - unfold HNSWWithDB.addPointWithData.
    destruct (addPoint (HNSWWithDB.base I) id' v) as [b [[]|e]]; simpl; [|done].
    case_bool_decide as Hid.
    + subst. apply lookup_insert_eq.
    + by apply lookup_insert_ne.
Qed.

Lemma run_cons I c cs :
  HNSWWithDB.run addPoint I (c :: cs)
  = HNSWWithDB.run addPoint (HNSWWithDB.exec addPoint I c).1 cs.
Proof. reflexivity. Qed.

Lemma last_stored_cons I c cs (id : Z) :
  HNSWWithDB.last_stored addPoint I (c :: cs) id =
  match HNSWWithDB.last_stored addPoint (HNSWWithDB.exec addPoint I c).1 cs id with
  | Some data => Some data
  | None => HNSWWithDB.stored_by c (HNSWWithDB.exec addPoint I c).2 id
  end.
Proof. simpl. by destruct (HNSWWithDB.exec addPoint I c). Qed.

(** After a history, the entry of [id] is the payload most recently
    stored under it, or the entry it had before when none was stored. *)
Lemma run_db I cs (id : Z) :
  HNSWWithDB.db (HNSWWithDB.run addPoint I cs) !! id =
  match HNSWWithDB.last_stored addPoint I cs id with
  | Some data => Some data
  | None => HNSWWithDB.db I !! id
  end.
Proof.
  revert I. induction cs as [|c cs IH]; intros I; [done|].
  rewrite run_cons, last_stored_cons, IH.
  destruct (HNSWWithDB.last_stored _ _ cs id); [done|].
  apply exec_db.
Qed.

(** C4. When [addPointWithData(id, vector, data)] completes,
    [getPointData(id)] returns [data], and the entry of every other id
    is what it was before the call. *)
Theorem addPointWithData_stores I I' (id : Z) (v : vector) data :
  HNSWWithDB.addPointWithData addPoint I id v data = (I', Ok ()) →
  HNSWWithDB.getPointData I' id = data ∧
  ∀ id', id' ≠ id →
    HNSWWithDB.db I' !! id' = HNSWWithDB.db I !! id' ∧
    HNSWWithDB.getPointData I' id' = HNSWWithDB.getPointData I id'.
Proof.
  unfold HNSWWithDB.addPointWithData.
  destruct (addPoint (HNSWWithDB.base I) id v) as [b [[]|e]]; [|done].
  intros [= <-]. split.
  - rewrite getPointData_lookup. simpl. by rewrite lookup_insert_eq.
  - intros id' Hne. rewrite !getPointData_lookup. simpl.
    by rewrite lookup_insert_ne.
Qed.

(** C5. When the inherited [addPoint(id, vector)] throws,
    [addPointWithData(id, vector, data)] throws the same error and the
    payload map is as before; in particular the entry of [id] is. *)
Theorem addPointWithData_failure I (id : Z) (v : vector) data
    (b : HNSW.t) (e : error) :
  addPoint (HNSWWithDB.base I) id v = (b, Throw e) →
  ∃ I', HNSWWithDB.addPointWithData addPoint I id v data = (I', Throw e) ∧
        HNSWWithDB.db I' = HNSWWithDB.db I ∧
        HNSWWithDB.db I' !! id = HNSWWithDB.db I !! id.
Proof.
  intros Hthrow. unfold HNSWWithDB.addPointWithData. rewrite Hthrow.
  eexists. split; [reflexivity|]. by split.
Qed.

(** C3. [searchKNNWithData(q, k)] returns as many entries as
    [searchKNN(q, k)]; its i-th entry has the id and the score of the i-th
    entry of [searchKNN(q, k)], and its data is [getPointData] of that id,
    which is the payload most recently stored under the id by a completed
    [addPointWithData] of the instance's history. *)
Theorem searchKNNWithData_entries I0 cs (q : vector) (k : Z)
    (results : list hit) :
  let I := HNSWWithDB.run addPoint I0 cs in
  searchKNN (HNSWWithDB.base I) q k = Ok results →
  ∃ with_data,
    HNSWWithDB.searchKNNWithData searchKNN I q k = Ok with_data ∧
    length with_data = length results ∧
    ∀ (i : nat) (r : hit), results !! i = Some r →
      ∃ r', with_data !! i = Some r' ∧
            HNSWWithDB.hwd_id r' = hit_id r ∧
            HNSWWithDB.hwd_score r' = hit_score r ∧
            HNSWWithDB.hwd_data r' = HNSWWithDB.getPointData I (hit_id r) ∧
            ∀ data,
              HNSWWithDB.last_stored addPoint I0 cs (hit_id r) = Some data →
              HNSWWithDB.hwd_data r' = data.
Proof.
  intros I Hsearch. unfold HNSWWithDB.searchKNNWithData. rewrite Hsearch.
  eexists. split; [reflexivity|]. split; [by rewrite length_fmap|].
  intros i r Hr. rewrite list_lookup_fmap, Hr. simpl.
  eexists. split; [reflexivity|]. simpl. repeat split.
  intros data Hlast. rewrite getPointData_lookup. unfold I.
  by rewrite run_db, Hlast.
Qed.

(** The payload map of an instance built by the constructor is empty. *)
Lemma new_db (M efConstruction : option Z) (d : option (option Z))
    (metric : option Metric) (id : Z) :
  HNSWWithDB.db (HNSWWithDB.new M efConstruction d metric : HNSWWithDB.t D)
    !! id = None.
Proof. apply lookup_empty. Qed.

(** C10, amended.  On any instance, built by the constructor or restored
    by [fromJSON], and after any history of [addPoint] and
    [addPointWithData] calls: an id that had no entry in the payload map
    the instance started with, and under which no completed
    [addPointWithData] stored a payload since, has
    [getPointData(id) = undefined] (a value, not an error), and every
    entry of [searchKNNWithData] with that id carries [data = undefined].
    An instance built by the constructor starts with no entry at all
    ([new_db]); an instance restored by [fromJSON] starts with the entries
    of the record. *)
Theorem getPointData_never_stored I0 cs (id : Z) :
  let I := HNSWWithDB.run addPoint I0 cs in
  HNSWWithDB.db I0 !! id = None →
  HNSWWithDB.last_stored addPoint I0 cs id = None →
  HNSWWithDB.getPointData I id = undefined ∧
  ∀ (q : vector) (k : Z) with_data r,
    HNSWWithDB.searchKNNWithData searchKNN I q k = Ok with_data →
    r ∈ with_data → HNSWWithDB.hwd_id r = id →
    HNSWWithDB.hwd_data r = undefined.
Proof.
  intros I Hstart Hnone.
  assert (Hget : HNSWWithDB.getPointData I id = undefined).
  { rewrite getPointData_lookup. unfold I. by rewrite run_db, Hnone, Hstart. }
  split; [exact Hget|].
  intros q k with_data r. unfold HNSWWithDB.searchKNNWithData.
  destruct (searchKNN (HNSWWithDB.base I) q k) as [results|e]; [|done].
  intros [= <-] Hin Hid.
  apply list_elem_of_fmap in Hin as (r0 & -> & _).
  simpl in *. by rewrite Hid.
Qed.

End Payload.

(** ** The statements above on concrete calls

    The inherited methods are [addPoint_unlinked] and the modelled
    [HNSW.searchKNN]; payloads are integers. *)

Lemma addPointWithData_stores_witness :
  let I : HNSWWithDB.t Z := HNSWWithDB.new None None None None in
  let I' :=
    (HNSWWithDB.addPointWithData addPoint_unlinked I 0 [2; 0]%R (payload 7)).1 in
  HNSWWithDB.getPointData I' 0 = payload 7 ∧
  HNSWWithDB.getPointData I' 1 = HNSWWithDB.getPointData I 1.
Proof.
  intros I I'.
  assert (Hcall : HNSWWithDB.addPointWithData addPoint_unlinked I 0 [2; 0]%R
                    (payload 7) = (I', Ok ())) by reflexivity.
  destruct (addPointWithData_stores addPoint_unlinked I I' 0 [2; 0]%R
              (payload 7) Hcall) as [Hsame Hother].
  split; [exact Hsame|]. apply (Hother 1). lia.
Defined.

Lemma addPointWithData_failure_witness :
  ∃ I', HNSWWithDB.addPointWithData addPoint_unlinked euclidean_index 0
          [5; 5]%R (payload 8) = (I', Throw DuplicateId) ∧
        HNSWWithDB.db I' = HNSWWithDB.db euclidean_index ∧
        HNSWWithDB.db I' !! 0 = HNSWWithDB.db euclidean_index !! 0.
Proof.
  apply (addPointWithData_failure addPoint_unlinked euclidean_index 0
           [5; 5]%R (payload 8) (HNSWWithDB.base euclidean_index) DuplicateId).
  reflexivity.
Defined.

Lemma searchKNNWithData_entries_witness :
  ∃ with_data,
    HNSWWithDB.searchKNNWithData HNSW.searchKNN euclidean_index [1; 0]%R 1
      = Ok with_data ∧
    with_data !! 0%nat
      = Some {| HNSWWithDB.hwd_id := 0;
                HNSWWithDB.hwd_score := (1 / 2)%R;
                HNSWWithDB.hwd_data := payload 7 |}.
Proof.
  destruct (searchKNNWithData_entries addPoint_unlinked HNSW.searchKNN
              (HNSWWithDB.new (Some 16) (Some 200) None (Some euclidean))
              [HNSWWithDB.AddPointWithData 0 [2; 0]%R (payload 7)]
              [1; 0]%R 1 [mkHit 0 (1 / 2)%R] searchKNN_euclidean_index)
    as (with_data & Hcall & _ & Hentries).
  exists with_data. split; [exact Hcall|].
  destruct (Hentries 0%nat (mkHit 0 (1 / 2)%R) eq_refl)
    as ([i s x] & Hlookup & Hid & Hscore & _ & Hdata).
  specialize (Hdata (payload 7) eq_refl). simpl in Hid, Hscore, Hdata.
  by rewrite Hlookup, Hid, Hscore, Hdata.
Defined.

(** C10 as it is worded fails on a restored instance: [fromJSON] fills
    the payload map from the record.  On [fromJSON(payload_record)], then
    [addPoint(5, [2, 0])], no [addPointWithData] ever stored a payload
    under id 5, and [getPointData(5)] is the payload 1 of the record, not
    [undefined]. *)
Lemma getPointData_restored_payload :
  let I0 := HNSWWithDB.fromJSON payload_record in
  let cs := [HNSWWithDB.AddPoint 5 [2; 0]%R] in
  let I := HNSWWithDB.run addPoint_unlinked I0 cs in
  HNSWWithDB.last_stored addPoint_unlinked I0 cs 5 = None ∧
  HNSWWithDB.getPointData I 5 = payload 1 ∧
  HNSWWithDB.getPointData I 5 ≠ undefined.
Proof. by vm_compute. Qed.

Lemma getPointData_never_stored_witness :
  HNSWWithDB.getPointData
    (HNSWWithDB.run addPoint_unlinked (HNSWWithDB.fromJSON payload_record)
       [HNSWWithDB.AddPoint 0 [2; 0]%R]) 0
  = undefined.
Proof.
  apply (getPointData_never_stored addPoint_unlinked HNSW.searchKNN
           (HNSWWithDB.fromJSON payload_record)
           [HNSWWithDB.AddPoint 0 [2; 0]%R] 0); reflexivity.
Defined.

(** ** Records read by [fromJSON] *)
Section FromJSON.
Context {D : Type}.

Lemma Map_from_snoc {V : Type} (entries : list (Z * V)) (e : Z * V) :
  Map_from (entries ++ [e]) = <[e.1 := e.2]> (Map_from entries).
Proof. unfold Map_from. by rewrite fold_left_app. Qed.

(** [new Map(entries)] holds for a key the value of its last entry. *)
Lemma Map_from_lookup {V : Type} (entries : list (Z * V)) (k : Z) :
  Map_from entries !! k = snd <$> last (filter (λ e, e.1 = k) entries).
Proof.
  induction entries as [|e entries IH] using rev_ind; [done|].
  rewrite Map_from_snoc, filter_app, filter_cons, filter_nil.
  destruct (decide (e.1 = k)) as [<-|Hne].
  - by rewrite lookup_insert_eq, last_snoc.
  - by rewrite lookup_insert_ne, app_nil_r.
Qed.

Lemma last_filter_fmap_key {V V' : Type} (g : V → V') (entries : list (Z * V))
    (k : Z) :
  last (filter (λ e, e.1 = k) ((λ e, (e.1, g e.2)) <$> entries))
  = (λ e, (e.1, g e.2)) <$> last (filter (λ e, e.1 = k) entries).
Proof.
  induction entries as [|e entries IH] using rev_ind; [done|].
  rewrite fmap_app, !filter_app, fmap_cons, fmap_nil, !filter_cons,
    !filter_nil.
  cbn [fst]. destruct (decide (e.1 = k)) as [Hk|Hk].
  - by rewrite !last_snoc.
  - by rewrite !app_nil_r.
Qed.

(** [new Float32Array(a)] has the length of [a]. *)
Lemma Float32Array_from_length (a : list R) :
  length (Float32Array_from a) = length a.
Proof. done. Qed.

(** X1. [fromJSON] takes [levelMax] and [entryPointId] from the record
    and builds [nodes] from the pairs of the record, the last pair of an
    id counting: an id has a node exactly when the record has a pair with
    it, and the node has the [id] field, the neighbor lists and the
    vector length of the last such pair.  The components of the vector,
    which [new Float32Array] converts, are left out of the statement. *)
Theorem fromJSON_graph (json : HNSWWithDB.JSON D) (id : Z) :
  let restored := HNSWWithDB.base (HNSWWithDB.fromJSON json) in
  let j := HNSWWithDB.json_base json in
  HNSW.levelMax restored = HNSW.json_levelMax j ∧
  HNSW.entryPointId restored = HNSW.json_entryPointId j ∧
  (λ n, (node_id n, node_neighbors n, length (node_vector n)))
    <$> HNSW.nodes restored !! id =
  (λ e : Z * Node,
     (node_id e.2, node_neighbors e.2, length (node_vector e.2)))
    <$> last (filter (λ e, e.1 = id) (HNSW.json_nodes j)).
Proof.
  cbv zeta.
  assert (Hnodes :
    HNSW.nodes (HNSWWithDB.base (HNSWWithDB.fromJSON json)) !! id =
    (λ e : Z * Node,
       {| node_id := node_id e.2;
          node_vector := Float32Array_from (node_vector e.2);
          node_neighbors := node_neighbors e.2 |})
      <$> last (filter (λ e, e.1 = id)
                  (HNSW.json_nodes (HNSWWithDB.json_base json)))).
  { unfold HNSWWithDB.fromJSON.
    destruct (HNSWWithDB.json_db json); cbn [HNSWWithDB.base HNSW.nodes];
      rewrite Map_from_lookup,
        (last_filter_fmap_key
           (λ n, {| node_id := node_id n;
                    node_vector := Float32Array_from (node_vector n);
                    node_neighbors := node_neighbors n |}));
      by destruct (last _). }
  split; [|split].
  - unfold HNSWWithDB.fromJSON; by destruct (HNSWWithDB.json_db json).
  - unfold HNSWWithDB.fromJSON; by destruct (HNSWWithDB.json_db json).
  - rewrite Hnodes. destruct (last _) as [[k n]|]; [|done].
    cbn [fmap option_fmap option_map fst snd node_id node_neighbors
         node_vector].
    by rewrite Float32Array_from_length.
Qed.

(** X2. The payloads of a restored instance are those of the record's
    [db] list, the last entry of an id counting: [getPointData(id)] is
    the data of the last entry with that id, and [undefined] when the
    list has no entry for the id or the record has no [db] field. *)
Theorem fromJSON_payloads (json : HNSWWithDB.JSON D) (id : Z) :
  HNSWWithDB.getPointData (HNSWWithDB.fromJSON json) id =
  match HNSWWithDB.json_db json with
  | Some entries =>
      default undefined (snd <$> last (filter (λ e, e.1 = id) entries))
  | None => undefined
  end.
Proof.
  unfold HNSWWithDB.getPointData, HNSWWithDB.fromJSON.
  destruct (HNSWWithDB.json_db json) as [entries|];
    cbn [HNSWWithDB.db HNSWWithDB.new].
  - rewrite Map_from_lookup. by destruct (last _) as [[k data]|].
  - by rewrite lookup_empty.
Qed.
End FromJSON.

(** ** [l2Normalize] on a zero vector *)
Section L2NormalizeMore.

(** The squares of zeros add up to [0]. *)
Lemma sum_of_zeros (v : list IEEE.number) :
  Forall IEEE.is_zero v →
  fold_left (λ norm x, IEEE.add norm (IEEE.mul x x)) v IEEE.number_0
  = IEEE.number_0.
Proof.
  induction 1 as [|x v Hx _ IH]; [done|].
  destruct x as [[]| | |]; try done; exact IH.
Qed.

(** The factor that [l2Normalize] takes for the sum [0]: the fallback
    [1e-9] gives [1 / Math.sqrt(1e-9)], about 31622.8. *)
Lemma zero_sum_factor :
  IEEE.div IEEE.number_1
    (IEEE.sqrt (IEEE.js_or_number IEEE.number_0 IEEE.number_1e_9))
  = S754_finite false 8692402644028538 (-38).
Proof. reflexivity. Qed.

(** X3. In the arithmetic of the code, a [Float32Array] of zeros (of
    either sign) goes through [l2Normalize] unchanged: the sum of squares
    is [0], the fallback [1e-9] makes the factor a finite number, and each
    product is the zero it came from.  No component becomes [NaN]. *)
Theorem l2Normalize_zero_vector (v : list IEEE.number) :
  Forall IEEE.is_zero v →
  IEEE.l2Normalize v = v ∧ Forall (λ x, x ≠ S754_nan) (IEEE.l2Normalize v).
Proof.
  intros Hv.
  assert (Hsame : IEEE.l2Normalize v = v).
  { unfold IEEE.l2Normalize. rewrite (sum_of_zeros v Hv), zero_sum_factor.
    induction Hv as [|x v Hx _ IH]; [done|].
    rewrite fmap_cons, IH. by destruct x as [[]| | |]. }
  rewrite Hsame. split; [done|].
  eapply Forall_impl; [exact Hv|]. by intros [] ?.
Qed.

Lemma l2Normalize_zero_vector_witness :
  IEEE.l2Normalize [S754_zero false; S754_zero true; S754_zero false]
  = [S754_zero false; S754_zero true; S754_zero false].
Proof.
  apply (l2Normalize_zero_vector
           [S754_zero false; S754_zero true; S754_zero false]).
  repeat constructor.
Defined.
End L2NormalizeMore.

(** ** The text of a note *)
Section TextFacts.

Lemma chars_append (s1 s2 : string) :
  String.list_ascii_of_string (String.append s1 s2)
  = String.list_ascii_of_string s1 ++ String.list_ascii_of_string s2.
Proof. induction s1 as [|c s1 IH]; simpl; [done|]. by f_equal. Qed.

Lemma drop_white_space_all (cs : list ascii) :
  forallb is_white_space cs = true → drop_white_space cs = [].
Proof.
  induction cs as [|c cs IH]; simpl; [done|].
  destruct (is_white_space c); simpl; [exact IH|done].
Qed.

(** A string of white space only is blank. *)
Lemma blank_white_space (s : string) :
  forallb is_white_space (String.list_ascii_of_string s) = true →
  blank s = true.
Proof.
  intros Hall. unfold blank, trim. rewrite (drop_white_space_all _ Hall).
  by apply bool_decide_eq_true_2.
Qed.

Lemma append_assoc (s1 s2 s3 : string) :
  String.append (String.append s1 s2) s3
  = String.append s1 (String.append s2 s3).
Proof.
  induction s1 as [|c s1 IH]; [done|].
  change (String c (String.append (String.append s1 s2) s3)
          = String c (String.append s1 (String.append s2 s3))).
  by rewrite IH.
Qed.

Lemma concat_cons2 (sep x y : string) (l : list string) :
  String.concat sep (x :: y :: l)
  = String.append x (String.append sep (String.concat sep (y :: l))).
Proof. reflexivity. Qed.

Lemma concat_app (sep : string) (l1 l2 : list string) :
  l1 ≠ [] → l2 ≠ [] →
  String.concat sep (l1 ++ l2)
  = String.append (String.concat sep l1)
      (String.append sep (String.concat sep l2)).
Proof.
  intros Hl1 Hl2. induction l1 as [|x l1 IH]; [done|].
  destruct l1 as [|y l1].
  - destruct l2 as [|z l2]; [done|]. reflexivity.
  - rewrite <- !app_comm_cons, !concat_cons2, app_comm_cons, IH by done.
    by rewrite !append_assoc.
Qed.

Lemma white_space_concat (l : list string) :
  Forall (λ s, s = EmptyString) l →
  forallb is_white_space
    (String.list_ascii_of_string (String.concat newline l)) = true.
Proof.
  induction 1 as [|x l -> Hl IH]; [done|].
  destruct l as [|y l]; [done|].
  rewrite concat_cons2.
  change (String.append EmptyString ?x) with x.
  rewrite chars_append, forallb_app, IH. reflexivity.
Qed.

Lemma block_text_textless (block : Block) :
  textless block → block_text block = EmptyString.
Proof.
  unfold textless, block_text.
  destruct (content block) as [[inlines|]|]; [|done..].
  induction 1 as [|i inlines Hi _ IH]; [done|].
  rewrite fmap_cons. destruct inlines as [|j inlines].
  - simpl. exact Hi.
  - rewrite fmap_cons, concat_cons2, Hi. rewrite fmap_cons in IH.
    by rewrite IH.
Qed.

Lemma blocksToText_textless_blank (blocks : list Block) :
  Forall textless blocks → blank (blocksToText (Some blocks)) = true.
Proof.
  intros Hblocks. apply blank_white_space. simpl. apply white_space_concat.
  apply Forall_fmap. eapply Forall_impl; [exact Hblocks|].
  intros block. apply block_text_textless.
Qed.

(** X6. The text of a list of blocks put together from two non-empty
    lists is the text of the first, a line break and the text of the
    second: each block contributes one line. *)
Theorem blocksToText_app (blocks1 blocks2 : list Block) :
  blocks1 ≠ [] → blocks2 ≠ [] →
  blocksToText (Some (blocks1 ++ blocks2))
  = String.append (blocksToText (Some blocks1))
      (String.append newline (blocksToText (Some blocks2))).
Proof.
  intros H1 H2. simpl. rewrite fmap_app. apply concat_app.
  - by destruct blocks1.
  - by destruct blocks2.
Qed.

Lemma blocksToText_app_witness :
  blocksToText
    (Some ([mkBlock (Some (InlineContent [InlineText (Some "ab")]))]
           ++ [mkBlock None; mkBlock (Some (InlineContent [InlineOther; InlineText (Some "c")]))]))
  = String.append "ab" (String.append newline (String.append newline "c")).
Proof.
  rewrite (blocksToText_app
             [mkBlock (Some (InlineContent [InlineText (Some "ab")]))]
             [mkBlock None;
              mkBlock (Some (InlineContent [InlineOther; InlineText (Some "c")]))])
    by done.
  reflexivity.
Defined.

(** X7. Blocks without text give a blank text: when every block has no
    content, a table, or inline content without a text that has
    characters, [blocksToText] consists of line breaks only and
    [!text.trim()] holds. *)
Theorem blocksToText_textless (blocks : list Block) :
  Forall textless blocks →
  blank (blocksToText (Some blocks)) = true ∧
  blocksToText (Some blocks)
  = String.concat newline (replicate (length blocks) EmptyString).
Proof.
  intros Hblocks. split; [by apply blocksToText_textless_blank|].
  unfold blocksToText. f_equal.
  induction Hblocks as [|block blocks Hb _ IH]; [done|].
  by rewrite fmap_cons, (block_text_textless block Hb), IH.
Qed.

Lemma blocksToText_textless_witness :
  blank (blocksToText
           (Some [mkBlock None; mkBlock (Some TableContent);
                  mkBlock (Some (InlineContent [InlineOther; InlineText None]))]))
  = true.
Proof.
  apply (blocksToText_textless
           [mkBlock None; mkBlock (Some TableContent);
            mkBlock (Some (InlineContent [InlineOther; InlineText None]))]).
  repeat constructor.
Defined.
End TextFacts.

(** ** Insertion-ordered maps *)
Section JSMapFacts.
Context {V : Type}.
Implicit Types (m : list (string * V)) (k key : string) (v : V).

Lemma JSMap_get_None key m : JSMap.get key m = None ↔ key ∉ m.*1.
Proof.
  induction m as [|[k v] m IH]; simpl.
  - split; [intros _; apply not_elem_of_nil|done].
  - case_bool_decide as Hk.
    + subst. split; [done|]. intros Hnot. exfalso. apply Hnot. left.
    + rewrite IH, not_elem_of_cons. split; [by intros ?|by intros [_ ?]].
Qed.

Lemma JSMap_get_lookup key v m (i : nat) :
  JSMap.wf m → m !! i = Some (key, v) → JSMap.get key m = Some v.
Proof.
  unfold JSMap.wf. revert i. induction m as [|[k v'] m IH]; intros i Hwf Hi.
  - done.
  - simpl in Hwf. apply NoDup_cons in Hwf as [Hk Hwf]. simpl.
    destruct i as [|i]; simpl in Hi.
    + injection Hi as -> ->. by rewrite bool_decide_eq_true_2.
    + case_bool_decide as Hkey; [|by eapply IH].
      subst. exfalso. apply Hk. apply list_elem_of_fmap.
      exists (key, v). split; [done|]. by eapply list_elem_of_lookup_2.
Qed.

Lemma JSMap_get_Some key v m :
  JSMap.get key m = Some v → (key, v) ∈ m.
Proof.
  induction m as [|[k v'] m IH]; simpl; [done|].
  case_bool_decide as Hk.
  - intros [= ->]. subst. left.
  - intros Hget. right. by apply IH.
Qed.

Lemma JSMap_keys_delete key m k :
  k ∈ (JSMap.delete key m).*1 → k ∈ m.*1.
Proof.
  induction m as [|[k' v] m IH]; simpl; [done|].
  case_bool_decide as Hk; simpl.
  - intros Hin. by right.
  - rewrite !elem_of_cons. intros [->|Hin]; [by left|right; by apply IH].
Qed.

Lemma JSMap_wf_delete key m : JSMap.wf m → JSMap.wf (JSMap.delete key m).
Proof.
  unfold JSMap.wf. induction m as [|[k v] m IH]; simpl; [done|].
  rewrite NoDup_cons. intros [Hk Hwf].
  case_bool_decide as Hkey; simpl; [done|].
  apply NoDup_cons. split; [|by apply IH].
  intros Hin. apply Hk. by eapply JSMap_keys_delete.
Qed.

Lemma JSMap_get_delete_eq key m :
  JSMap.wf m → JSMap.get key (JSMap.delete key m) = None.
Proof.
  unfold JSMap.wf. induction m as [|[k v] m IH]; simpl; [done|].
  rewrite NoDup_cons. intros [Hk Hwf].
  case_bool_decide as Hkey; simpl.
  - subst. by apply JSMap_get_None.
  - rewrite bool_decide_eq_false_2 by done. by apply IH.
Qed.

Lemma JSMap_get_delete_ne key k m :
  k ≠ key → JSMap.get k (JSMap.delete key m) = JSMap.get k m.
Proof.
  intros Hne. induction m as [|[k' v] m IH]; simpl; [done|].
  case_bool_decide as Hkey; simpl.
  - subst. by rewrite bool_decide_eq_false_2 by done.
  - by rewrite IH.
Qed.

Lemma JSMap_length_delete key m :
  length (JSMap.delete key m)
  = if JSMap.get key m is Some _ then pred (length m) else length m.
Proof.
  induction m as [|[k v] m IH]; simpl; [done|].
  case_bool_decide as Hkey; simpl; [done|].
  rewrite IH. destruct (JSMap.get key m) eqn:Hget; [|done].
  apply JSMap_get_Some in Hget. destruct m; [by apply elem_of_nil in Hget|done].
Qed.

Lemma JSMap_get_set_eq key v m : JSMap.get key (JSMap.set key v m) = Some v.
Proof.
  induction m as [|[k v'] m IH]; simpl.
  - by rewrite bool_decide_eq_true_2.
  - case_bool_decide as Hkey; simpl.
    + by rewrite bool_decide_eq_true_2.
    + by rewrite bool_decide_eq_false_2.
Qed.

Lemma JSMap_get_set_ne key k v m :
  k ≠ key → JSMap.get k (JSMap.set key v m) = JSMap.get k m.
Proof.
  intros Hne. induction m as [|[k' v'] m IH]; simpl.
  - by rewrite bool_decide_eq_false_2 by done.
  - case_bool_decide as Hkey; simpl.
    + subst. by rewrite !bool_decide_eq_false_2 by done.
    + by rewrite IH.
Qed.

Lemma JSMap_keys_set key v m :
  (JSMap.set key v m).*1
  = if JSMap.get key m is Some _ then m.*1 else m.*1 ++ [key].
Proof.
  induction m as [|[k v'] m IH]; csimpl; [done|].
  case_bool_decide as Hkey; csimpl; [by subst|].
  rewrite IH. by destruct (JSMap.get key m).
Qed.

Lemma JSMap_wf_set key v m : JSMap.wf m → JSMap.wf (JSMap.set key v m).
Proof.
  unfold JSMap.wf. rewrite JSMap_keys_set.
  destruct (JSMap.get key m) eqn:Hget; [done|].
  intros Hwf. apply NoDup_app. split; [done|]. split; [|apply NoDup_singleton].
  intros k Hk Hin. apply list_elem_of_singleton in Hin. subst.
  by apply JSMap_get_None in Hget.
Qed.
End JSMapFacts.

(** ** The index maps of the service *)
Section Indexing.

Lemma index_entries (l : list (string * NoteEmbedding)) (ix : Service.indexing) :
  let ix' := fold_left Service.index_entry l ix in
  let n0 := Service.ix_nextIndex ix in
  Service.ix_nextIndex ix' = n0 + Z.of_nat (length l) ∧
  Service.ix_indexData ix'
    = Service.ix_indexData ix
      ++ imap (λ i e, (n0 + Z.of_nat i, ne_embedding e.2)) l ∧
  (∀ (i : nat) k e, l !! i = Some (k, e) →
     Service.ix_indexToNoteId ix' !! (n0 + Z.of_nat i) = Some k) ∧
  (NoDup l.*1 → ∀ (i : nat) k e, l !! i = Some (k, e) →
     Service.ix_noteIdToIndex ix' !! k = Some (n0 + Z.of_nat i)) ∧
  (∀ j, ¬ (n0 ≤ j < n0 + Z.of_nat (length l)) →
     Service.ix_indexToNoteId ix' !! j = Service.ix_indexToNoteId ix !! j) ∧
  (∀ k, k ∉ l.*1 →
     Service.ix_noteIdToIndex ix' !! k = Service.ix_noteIdToIndex ix !! k).
Proof.
  revert ix. induction l as [|[k0 e0] l IH]; intros ix; cbv zeta.
  - repeat split; simpl; try done.
    + lia.
    + by rewrite app_nil_r.
  - specialize (IH (Service.index_entry ix (k0, e0))). cbv zeta in IH.
    destruct IH as (Hnext & Hdata & Hi2n & Hn2i & Hkeep & Hother).
    cbn [fold_left]. cbn [Service.index_entry Service.ix_nextIndex
      Service.ix_indexData Service.ix_indexToNoteId Service.ix_noteIdToIndex
      fst snd] in *.
    set (n0 := Service.ix_nextIndex ix) in *.
    repeat split.
    + rewrite Hnext. simpl length. lia.
    + rewrite Hdata, <- app_assoc. f_equal. simpl. f_equal.
      * do 2 f_equal. lia.
      * apply imap_ext. intros i [k e] _. simpl. f_equal. lia.
    + intros [|i] k e Hi; simpl in Hi.
      * injection Hi as -> ->. rewrite Hkeep by lia.
        replace (n0 + Z.of_nat 0) with n0 by lia. apply lookup_insert_eq.
      * replace (n0 + Z.of_nat (S i)) with (n0 + 1 + Z.of_nat i) by lia.
        by eapply Hi2n.
    + intros Hnd [|i] k e Hi; csimpl in Hnd; apply NoDup_cons in Hnd as [Hk0 Hnd];
        simpl in Hi.
      * injection Hi as -> ->. rewrite Hother by done.
        replace (n0 + Z.of_nat 0) with n0 by lia. apply lookup_insert_eq.
      * replace (n0 + Z.of_nat (S i)) with (n0 + 1 + Z.of_nat i) by lia.
        by eapply Hn2i.
    + intros j Hj. simpl length in Hj. rewrite Hkeep by lia.
      apply lookup_insert_ne. lia.
    + intros k Hk. csimpl in Hk. apply not_elem_of_cons in Hk as [Hne Hk].
      rewrite Hother by done. by apply lookup_insert_ne.
Qed.

End Indexing.

(** ** The service *)

(** Unfolds the sequencing of a call. *)
Ltac act_unfold :=
  unfold mbind, mret, Service.act_bind, Service.act_ret, Service.bind,
    Service.ret, Service.try_catch, Service.this, Service.update,
    Service.outside, Service.completed;
  cbv beta iota delta [fst snd].

Section ServiceFacts.
Context {W StoreRef Blob E : Type} `{!Collaborators W StoreRef Blob E}.
Implicit Types (w : W) (s : Service.t StoreRef) (noteId : string).

(** The index data of a list of embeddings: position and vector. *)
Lemma buildHNSWIndex_nonempty w s :
  Service.embeddings s ≠ [] →
  let ix :=
    fold_left Service.index_entry (Service.embeddings s)
      (Service.mkIndexing 0 ∅ ∅ []) in
  let built :=
    hnswIndex_buildIndex (HNSW.new 16 200 None cosine)
      (Service.ix_indexData ix) in
  Service.buildHNSWIndex (w, s) =
  ((w, {| Service.embeddings := Service.embeddings s;
          Service.hnswIndex := Some built.1;
          Service.noteIdToIndex := Service.ix_noteIdToIndex ix;
          Service.indexToNoteId := Service.ix_indexToNoteId ix;
          Service.nextIndex := Service.ix_nextIndex ix;
          Service.isReady := Service.isReady s;
          Service.isInitialized := Service.isInitialized s;
          Service.storeRef := Service.storeRef s |}),
   built.2).
Proof.
  intros Hne. cbv zeta. unfold Service.buildHNSWIndex.
  unfold mbind, Service.act_bind, Service.bind, Service.this. cbn [fst snd].
  rewrite bool_decide_eq_false_2.
  - by destruct (hnswIndex_buildIndex _ _) as [index r].
  - unfold JSMap.size. destruct (Service.embeddings s); [done|]. simpl. lia.
Qed.

Lemma buildHNSWIndex_empty w s :
  Service.embeddings s = [] →
  Service.buildHNSWIndex (w, s) = ((w, Service.set_hnswIndex None s), Normal ()).
Proof.
  intros Hempty. unfold Service.buildHNSWIndex.
  unfold mbind, Service.act_bind, Service.bind, Service.this. cbn [fst snd].
  rewrite Hempty. reflexivity.
Qed.

(** The index maps after [buildHNSWIndex] on a service with embeddings. *)
Lemma index_maps_after_build w w' s s' (r : completion E unit) :
  Service.embeddings s ≠ [] →
  JSMap.wf (Service.embeddings s) →
  Service.buildHNSWIndex (w, s) = ((w', s'), r) →
  w' = w ∧
  Service.embeddings s' = Service.embeddings s ∧
  Service.nextIndex s' = Service.getEmbeddingCount s ∧
  (∀ (i : nat) noteId e,
     Service.embeddings s !! i = Some (noteId, e) →
     Service.noteIdToIndex s' !! noteId = Some (Z.of_nat i) ∧
     Service.indexToNoteId s' !! Z.of_nat i = Some noteId) ∧
  (∀ noteId (j : Z),
     Service.noteIdToIndex s' !! noteId = Some j ↔
     Service.indexToNoteId s' !! j = Some noteId) ∧
  (∀ (j : Z) noteId,
     Service.indexToNoteId s' !! j = Some noteId →
     0 ≤ j < Service.getEmbeddingCount s).
Proof.
  intros Hne Hwf. rewrite buildHNSWIndex_nonempty by done. cbv zeta.
  intros [= <- <- _].
  cbn [Service.embeddings Service.nextIndex Service.noteIdToIndex
       Service.indexToNoteId].
  destruct (index_entries (Service.embeddings s) (Service.mkIndexing 0 ∅ ∅ []))
    as (Hnext & _ & Hi2n & Hn2i & Hkeep & Hother).
  cbn [Service.ix_nextIndex Service.ix_noteIdToIndex Service.ix_indexToNoteId]
    in *.
  specialize (Hn2i Hwf).
  split; [done|]. split; [done|]. split; [rewrite Hnext; unfold
    Service.getEmbeddingCount, JSMap.size; lia|].
  split; [|split].
  - intros i noteId e Hi. split.
    + rewrite (Hn2i i noteId e Hi). f_equal; lia.
    + rewrite <- (Hi2n i noteId e Hi). f_equal; lia.
  - intros noteId j. split.
    + intros Hj.
      destruct (decide (noteId ∈ (Service.embeddings s).*1)) as [Hin|Hnot].
      * apply list_elem_of_fmap in Hin as ([k e] & -> & Hin).
        apply list_elem_of_lookup in Hin as [i Hi]. cbn [fst] in *.
        rewrite (Hn2i i k e Hi) in Hj. injection Hj as <-.
        by eapply Hi2n.
      * rewrite Hother in Hj by done. by rewrite lookup_empty in Hj.
    + intros Hj.
      destruct (decide (0 ≤ j < 0 + Z.of_nat (length (Service.embeddings s))))
        as [Hin|Hout].
      * assert (is_Some (Service.embeddings s !! Z.to_nat j)) as [[k e] Hi]
          by (apply lookup_lt_is_Some_2; lia).
        pose proof (Hi2n _ _ _ Hi) as Hk.
        replace (0 + Z.of_nat (Z.to_nat j)) with j in Hk by lia.
        rewrite Hk in Hj. injection Hj as <-.
        rewrite (Hn2i _ _ _ Hi). f_equal; lia.
      * rewrite Hkeep in Hj by done. by rewrite lookup_empty in Hj.
  - intros j noteId Hj. unfold Service.getEmbeddingCount, JSMap.size.
    destruct (decide (0 ≤ j < 0 + Z.of_nat (length (Service.embeddings s))))
      as [Hin|Hout]; [lia|].
    rewrite Hkeep in Hj by done. by rewrite lookup_empty in Hj.
Qed.

(** X8. [buildHNSWIndex] on a service with embeddings numbers the notes
    by their position in [embeddings]: afterwards [nextIndex] is their
    count, [noteIdToIndex] and [indexToNoteId] map each note to its
    position and back, the two maps are inverse to each other and hold no
    other index.  The world and the embeddings are untouched, and this
    holds whether [buildIndex] returns or throws. *)
Theorem buildHNSWIndex_numbers_notes w w' s s' (r : completion E unit) :
  Service.embeddings s ≠ [] →
  JSMap.wf (Service.embeddings s) →
  Service.buildHNSWIndex (w, s) = ((w', s'), r) →
  w' = w ∧
  Service.embeddings s' = Service.embeddings s ∧
  Service.nextIndex s' = Service.getEmbeddingCount s ∧
  (∀ (i : nat) noteId e,
     Service.embeddings s !! i = Some (noteId, e) →
     Service.noteIdToIndex s' !! noteId = Some (Z.of_nat i) ∧
     Service.indexToNoteId s' !! Z.of_nat i = Some noteId) ∧
  (∀ noteId (j : Z),
     Service.noteIdToIndex s' !! noteId = Some j ↔
     Service.indexToNoteId s' !! j = Some noteId) ∧
  (∀ (j : Z) noteId,
     Service.indexToNoteId s' !! j = Some noteId →
     0 ≤ j < Service.getEmbeddingCount s).
Proof. apply index_maps_after_build. Qed.

Lemma set_isReady_same s : Service.set_isReady (Service.isReady s) s = s.
Proof. by destruct s. Qed.

(** [initialize] returns, and changes at most the world and [isReady]. *)
Lemma initialize_run w s :
  ∃ w1 b, Service.initialize (w, s)
          = ((w1, Service.set_isReady b s), Normal ()).
Proof.
  unfold Service.initialize, mbind, Service.act_bind, Service.bind,
    Service.this, Service.try_catch, Service.outside, Service.update,
    Service.ret.
  cbv beta iota delta [fst snd]. destruct (Service.isReady s) eqn:Hready.
  - exists w, true. by rewrite <- Hready, set_isReady_same.
  - destruct (embeddingService_ready w) as [w1 [[]|e]]; cbn [fst snd].
    + exists w1, true. reflexivity.
    + exists w1, false. by rewrite <- Hready, set_isReady_same.
Qed.

(** What [search] answers once the embedding of the query and the hits of
    the index are there. *)
Lemma to_SearchResult_Some s (result : hit) (res : SearchResult) :
  Service.to_SearchResult s result = Some res →
  ∃ noteId e,
    Service.indexToNoteId s !! hit_id result = Some noteId ∧
    noteId ≠ EmptyString ∧
    JSMap.get noteId (Service.embeddings s) = Some e ∧
    res = {| sr_noteId := ne_noteId e; sr_title := ne_title e;
             sr_content := ne_content e; sr_score := hit_score result |}.
Proof.
  unfold Service.to_SearchResult.
  destruct (Service.indexToNoteId s !! hit_id result) as [noteId|]; [|done].
  case_bool_decide as Hempty; [done|].
  destruct (JSMap.get noteId (Service.embeddings s)) as [e|] eqn:Hget; [|done].
  intros [= <-]. by exists noteId, e.
Qed.

(** The run of [search], case by case. *)
Lemma search_run (query : string) (limit : option Z) w s :
  ∃ w1 b,
    Service.initialize (w, s) = ((w1, Service.set_isReady b s), Normal ()) ∧
    Service.search query limit (w, s) =
    match Service.hnswIndex s with
    | None => ((w1, Service.set_isReady b s), Normal [])
    | Some index =>
        if blank query || bool_decide (JSMap.size (Service.embeddings s) = 0)
        then ((w1, Service.set_isReady b s), Normal [])
        else
          let '(w2, embedded) :=
            embeddingService_embed w1 [String.append "search_query: " query] in
          ((w2, Service.set_isReady b s),
           match embedded with
           | Abrupt _ => Normal []
           | Normal queryVector =>
               match hnswIndex_searchKNN index (l2Normalize queryVector)
                       (default 10 limit) with
               | Abrupt _ => Normal []
               | Normal hnswResults =>
                   Normal (omap (Service.to_SearchResult
                                   (Service.set_isReady b s)) hnswResults)
               end
           end)
    end.
Proof.
  destruct (initialize_run w s) as (w1 & b & Hinit).
  exists w1, b. split; [done|].
  unfold Service.search, Service.try_catch.
  unfold mbind at 1. unfold Service.act_bind, Service.bind at 1.
  rewrite Hinit.
  unfold mbind, Service.act_bind, Service.bind, Service.this, Service.ret,
    Service.outside, Service.completed. cbn [fst snd Service.hnswIndex
    Service.embeddings Service.set_isReady].
  destruct (Service.hnswIndex s) as [index|]; [|done].
  destruct (blank query || _); [done|]. cbn [fst snd].
  destruct (embeddingService_embed w1 _) as [w2 [queryVector|e]]; [|done].
  by destruct (hnswIndex_searchKNN index _ _) as [hnswResults|e].
Qed.

Lemma omap_scores_sublist s (hits : list hit) :
  sr_score <$> omap (Service.to_SearchResult s) hits `sublist_of`
  hit_score <$> hits.
Proof.
  induction hits as [|result hits IH]; csimpl; [constructor|].
  destruct (Service.to_SearchResult s result) as [res|] eqn:Hres; csimpl.
  - apply to_SearchResult_Some in Hres as (noteId & e & _ & _ & _ & ->).
    by apply sublist_skip.
  - by apply sublist_cons.
Qed.

Lemma search_results_stored (query : string) (limit : option Z) w s :
  let out := Service.search query limit (w, s) in
  ∃ results,
    out.2 = Normal results ∧
    (∃ b, out.1.2 = Service.set_isReady b s) ∧
    ∀ res, res ∈ results →
      ∃ noteId e (id : Z),
        JSMap.get noteId (Service.embeddings s) = Some e ∧
        noteId ≠ EmptyString ∧
        Service.indexToNoteId s !! id = Some noteId ∧
        sr_noteId res = ne_noteId e ∧ sr_title res = ne_title e ∧
        sr_content res = ne_content e.
Proof.
  cbv zeta. destruct (search_run query limit w s) as (w1 & b & _ & ->).
  assert (Hnone : ∀ w', ∃ results,
    ((w', Service.set_isReady b s), @Normal E _ ([] : list SearchResult)).2
      = Normal results ∧
    (∃ b', ((w', Service.set_isReady b s),
            @Normal E _ ([] : list SearchResult)).1.2
           = Service.set_isReady b' s) ∧
    ∀ res, res ∈ results →
      ∃ noteId e (id : Z),
        JSMap.get noteId (Service.embeddings s) = Some e ∧
        noteId ≠ EmptyString ∧
        Service.indexToNoteId s !! id = Some noteId ∧
        sr_noteId res = ne_noteId e ∧ sr_title res = ne_title e ∧
        sr_content res = ne_content e).
  { intros w'. exists []. split; [done|]. split; [by exists b|].
    intros res Hres. by apply elem_of_nil in Hres. }
  destruct (Service.hnswIndex s) as [index|]; [|apply Hnone].
  destruct (blank query || _); [apply Hnone|].
  destruct (embeddingService_embed w1 _) as [w2 [queryVector|e]];
    [|apply Hnone].
  destruct (hnswIndex_searchKNN index _ _) as [hits|e]; [|apply Hnone].
  eexists. split; [reflexivity|]. split; [by exists b|].
  intros res Hres. apply list_elem_of_omap in Hres as (result & _ & Hres).
  apply to_SearchResult_Some in Hres as (noteId & e & Hid & Hne & Hget & ->).
  by exists noteId, e, (hit_id result).
Qed.

(** X9. [search] never throws and changes nothing of the service but
    [isReady].  Every result it returns is a note of [embeddings], found
    under a key that is not the empty string and that [indexToNoteId]
    holds for some index id; so a note whose id is the empty string is
    never returned. *)
Theorem search_sound (query : string) (limit : option Z) w s :
  let out := Service.search query limit (w, s) in
  ∃ results,
    out.2 = Normal results ∧
    (∃ b, out.1.2 = Service.set_isReady b s) ∧
    ∀ res, res ∈ results →
      ∃ noteId e (id : Z),
        JSMap.get noteId (Service.embeddings s) = Some e ∧
        noteId ≠ EmptyString ∧
        Service.indexToNoteId s !! id = Some noteId ∧
        sr_noteId res = ne_noteId e ∧ sr_title res = ne_title e ∧
        sr_content res = ne_content e.
Proof. apply search_results_stored. Qed.

(** X10. A blank query, a service without embeddings and a service without
    index are answered with the empty list right after [initialize]:
    neither [embed] nor the index is called. *)
Theorem search_no_results (query : string) (limit : option Z) w s :
  blank query = true ∨ Service.embeddings s = [] ∨ Service.hnswIndex s = None →
  Service.search query limit (w, s)
  = ((Service.initialize (w, s)).1, Normal []).
Proof.
  intros Hcase. destruct (search_run query limit w s) as (w1 & b & -> & ->).
  destruct (Service.hnswIndex s) as [index|]; [|done].
  destruct Hcase as [->|[Hempty|?]]; [done| |done].
  rewrite Hempty. by rewrite orb_true_r.
Qed.

Lemma search_success (query : string) (limit : option Z) w w1 w2 s s1
    (index : HNSW.t) (queryVector : vector) (hits : list hit) :
  Service.hnswIndex s = Some index →
  blank query = false →
  Service.embeddings s ≠ [] →
  Service.initialize (w, s) = ((w1, s1), Normal ()) →
  embeddingService_embed w1 [String.append "search_query: " query]
    = (w2, Normal queryVector) →
  hnswIndex_searchKNN index (l2Normalize queryVector) (default 10 limit)
    = Normal hits →
  Service.search query limit (w, s)
  = ((w2, s1), Normal (omap (Service.to_SearchResult s) hits)).
Proof.
  intros Hindex Hblank Hne Hinit Hembed Hsearch.
  destruct (search_run query limit w s) as (w1' & b & Hinit' & ->).
  rewrite Hinit in Hinit'. injection Hinit' as -> ->.
  rewrite Hindex, Hblank, Hembed, Hsearch.
  rewrite bool_decide_eq_false_2; [done|].
  unfold JSMap.size. destruct (Service.embeddings s); [done|]. simpl. lia.
Qed.

(** X11. When the query is embedded and the index answers, [search] returns
    the hits that translate to a note, in the order of the hits and each
    with the score of its hit: the scores of the results are a sublist of
    the scores of the hits. *)
Theorem search_ranking (query : string) (limit : option Z) w w1 w2 s s1
    (index : HNSW.t) (queryVector : vector) (hits : list hit) :
  Service.hnswIndex s = Some index →
  blank query = false →
  Service.embeddings s ≠ [] →
  Service.initialize (w, s) = ((w1, s1), Normal ()) →
  embeddingService_embed w1 [String.append "search_query: " query]
    = (w2, Normal queryVector) →
  hnswIndex_searchKNN index (l2Normalize queryVector) (default 10 limit)
    = Normal hits →
  ∃ results,
    Service.search query limit (w, s) = ((w2, s1), Normal results) ∧
    results = omap (Service.to_SearchResult s) hits ∧
    sr_score <$> results `sublist_of` hit_score <$> hits ∧
    (length results ≤ length hits)%nat.
Proof.
  intros Hindex Hblank Hne Hinit Hembed Hsearch.
  rewrite (search_success query limit w w1 w2 s s1 index queryVector hits)
    by done.
  eexists. split; [reflexivity|]. split; [reflexivity|].
  split; [apply omap_scores_sublist|].
  pose proof (sublist_length _ _ (omap_scores_sublist s hits)) as Hlen.
  by rewrite !length_fmap in Hlen.
Qed.

(** [buildHNSWIndex] touches neither the world nor the embeddings. *)
Lemma buildHNSWIndex_run w s :
  ∃ s' r,
    Service.buildHNSWIndex (w, s) = ((w, s'), r) ∧
    Service.embeddings s' = Service.embeddings s ∧
    Service.isReady s' = Service.isReady s ∧
    Service.isInitialized s' = Service.isInitialized s ∧
    Service.storeRef s' = Service.storeRef s ∧
    (Service.embeddings s = [] → s' = Service.set_hnswIndex None s ∧ r = Normal ()).
Proof.
  assert (Service.embeddings s = [] ∨ Service.embeddings s ≠ []) as [Hl|Hl]
    by (destruct (Service.embeddings s); [by left|by right]).
  - rewrite buildHNSWIndex_empty by done. by eexists _, _.
  - rewrite buildHNSWIndex_nonempty by done. cbv zeta.
    eexists _, _. split; [reflexivity|]. by repeat split.
Qed.

(** The note at position [id] of [embeddings] with the score of a hit. *)
Lemma to_SearchResult_position s (result : hit) :
  JSMap.wf (Service.embeddings s) →
  (∀ k e, (k, e) ∈ Service.embeddings s → k ≠ EmptyString ∧ ne_noteId e = k) →
  (∀ (i : nat) k e, Service.embeddings s !! i = Some (k, e) →
     Service.indexToNoteId s !! Z.of_nat i = Some k) →
  (∀ j k, Service.indexToNoteId s !! j = Some k →
     0 ≤ j < Service.getEmbeddingCount s) →
  Service.to_SearchResult s result =
  if bool_decide (0 ≤ hit_id result) then
    (λ entry, {| sr_noteId := entry.1; sr_title := ne_title entry.2;
                 sr_content := ne_content entry.2;
                 sr_score := hit_score result |})
      <$> Service.embeddings s !! Z.to_nat (hit_id result)
  else None.
Proof.
  intros Hwf Hkeys Hpos Hrange. unfold Service.to_SearchResult.
  destruct (Service.indexToNoteId s !! hit_id result) as [k|] eqn:Hid.
  - pose proof (Hrange _ _ Hid) as Hin.
    unfold Service.getEmbeddingCount, JSMap.size in Hin.
    rewrite (bool_decide_eq_true_2 (0 ≤ hit_id result)) by lia.
    assert (is_Some (Service.embeddings s !! Z.to_nat (hit_id result)))
      as [[k' e] Hi] by (apply lookup_lt_is_Some_2; lia).
    pose proof (Hpos _ _ _ Hi) as Hk. rewrite Z2Nat.id in Hk by lia.
    rewrite Hk in Hid. injection Hid as <-.
    destruct (Hkeys k' e) as [Hne Hsame]; [by eapply list_elem_of_lookup_2|].
    rewrite bool_decide_eq_false_2 by done.
    rewrite (JSMap_get_lookup _ _ _ _ Hwf Hi), Hi. simpl. by rewrite Hsame.
  - case_bool_decide as Hpos0; [|done].
    destruct (Service.embeddings s !! Z.to_nat (hit_id result))
      as [[k e]|] eqn:Hi; [|done].
    apply Hpos in Hi. rewrite Z2Nat.id in Hi by lia. congruence.
Qed.

(** X12. After [buildHNSWIndex] the ids of the index are the positions of
    the notes: for a service whose notes have distinct, non-empty ids that
    agree with their records, [search] translates every hit whose id is a
    position of [embeddings] to the note at that position, with the score
    of the hit, and drops the other hits. *)
Theorem search_after_build (query : string) (limit : option Z)
    w0 w w1 w2 s0 s s1 (r0 : completion E unit) (index : HNSW.t)
    (queryVector : vector) (hits : list hit) :
  Service.embeddings s0 ≠ [] →
  JSMap.wf (Service.embeddings s0) →
  (∀ k e, (k, e) ∈ Service.embeddings s0 → k ≠ EmptyString ∧ ne_noteId e = k) →
  Service.buildHNSWIndex (w0, s0) = ((w0, s), r0) →
  Service.hnswIndex s = Some index →
  blank query = false →
  Service.initialize (w, s) = ((w1, s1), Normal ()) →
  embeddingService_embed w1 [String.append "search_query: " query]
    = (w2, Normal queryVector) →
  hnswIndex_searchKNN index (l2Normalize queryVector) (default 10 limit)
    = Normal hits →
  Service.search query limit (w, s) =
  ((w2, s1),
   Normal (omap (λ result : hit,
             if bool_decide (0 ≤ hit_id result) then
               (λ entry, {| sr_noteId := entry.1;
                            sr_title := ne_title entry.2;
                            sr_content := ne_content entry.2;
                            sr_score := hit_score result |})
                 <$> Service.embeddings s0 !! Z.to_nat (hit_id result)
             else None) hits)).
Proof.
  intros Hne Hwf Hkeys Hbuild Hindex Hblank Hinit Hembed Hsearch.
  destruct (index_maps_after_build _ _ _ _ _ Hne Hwf Hbuild)
    as (_ & Hsame & Hnext & Hmaps & Hinv & Hrange).
  assert (Hne' : Service.embeddings s ≠ []) by by rewrite Hsame.
  rewrite (search_success query limit w w1 w2 s s1 index queryVector hits)
    by done.
  do 2 f_equal. apply list_omap_ext, Forall_Forall2_diag, Forall_forall.
  intros result _. rewrite <- Hsame.
  apply to_SearchResult_position; rewrite ?Hsame; try done.
  - intros i k e Hi. by apply (Hmaps i k e).
  - intros j k Hj. unfold Service.getEmbeddingCount. rewrite Hsame.
    by eapply Hrange.
Qed.
End ServiceFacts.

(** ** Reasoning about calls *)
Section CallFacts.
Context {W StoreRef Blob E : Type} `{!Collaborators W StoreRef Blob E}.
Implicit Types (w : W) (s : Service.t StoreRef) (P : Service.t StoreRef → Prop).
Local Abbreviation act := (@Service.act W StoreRef E).
Local Abbreviation keeps P m := (@Service.keeps W StoreRef E P _ m).
Local Abbreviation returns m := (@Service.returns W StoreRef E _ m).

Lemma keeps_bind P {A B : Type} (m : act A) (k : A → act B) :
  keeps P m → (∀ a, keeps P (k a)) →
  keeps P (m ≫= k).
Proof.
  intros Hm Hk w s HP. specialize (Hm w s HP). act_unfold.
  destruct (m (w, s)) as [[w1 s1] [a|e]]; cbv beta iota delta [fst snd] in *.
  - by apply Hk.
  - done.
Qed.

Lemma keeps_this P {B : Type} (k : Service.t StoreRef → act B) :
  (∀ w s, P s → P (k s (w, s)).1.2) →
  keeps P (Service.this ≫= k).
Proof. intros Hk w s HP. act_unfold. by apply Hk. Qed.

Lemma keeps_try_catch P {A : Type} (body : act A)
    (handler : E → act A) :
  keeps P body → (∀ e, keeps P (handler e)) →
  keeps P (Service.try_catch body handler).
Proof.
  intros Hbody Hhandler w s HP. specialize (Hbody w s HP). act_unfold.
  destruct (body (w, s)) as [[w1 s1] [a|e]]; cbv beta iota delta [fst snd] in *.
  - done.
  - by apply Hhandler.
Qed.

Lemma keeps_ret P {A : Type} (a : A) : keeps P (Service.ret a).
Proof. by intros w s HP. Qed.

Lemma keeps_update P (f : Service.t StoreRef → Service.t StoreRef) :
  (∀ s, P s → P (f s)) → keeps P (Service.update f).
Proof. intros Hf w s HP. by apply Hf. Qed.

Lemma keeps_outside P {A : Type} (call : W → W * completion E A) :
  keeps P (Service.outside call).
Proof. intros w s HP. act_unfold. by destruct (call w). Qed.

Lemma keeps_completed P {A : Type} (r : completion E A) :
  keeps P (Service.completed r).
Proof. by intros w s HP. Qed.

Lemma returns_bind {A B : Type} (m : act A) (k : A → act B) :
  returns m → (∀ a, returns (k a)) → returns (m ≫= k).
Proof.
  intros Hm Hk [w s]. destruct (Hm (w, s)) as [a Ha]. act_unfold.
  destruct (m (w, s)) as [[w1 s1] r]. cbv beta iota delta [snd] in Ha.
  subst r. apply Hk.
Qed.

Lemma returns_try_catch {A : Type} (body : act A)
    (handler : E → act A) :
  (∀ e, returns (handler e)) →
  returns (Service.try_catch body handler).
Proof.
  intros Hhandler [w s]. act_unfold.
  destruct (body (w, s)) as [[w1 s1] [a|e]]; [by exists a|apply Hhandler].
Qed.

Lemma returns_ret {A : Type} (a : A) : returns (Service.ret a).
Proof. intros st. by exists a. Qed.

Lemma returns_this : returns Service.this.
Proof. intros st. by eexists. Qed.

Lemma returns_update (f : Service.t StoreRef → Service.t StoreRef) :
  returns (Service.update f).
Proof. intros st. by eexists. Qed.

(** *** The methods keep the service consistent *)

Lemma consistent_set_isReady b s :
  Service.consistent s → Service.consistent (Service.set_isReady b s).
Proof. done. Qed.

Lemma keeps_initialize P :
  (∀ b s, P s → P (Service.set_isReady b s)) →
  keeps P Service.initialize.
Proof.
  intros HP w s Hs. destruct (initialize_run w s) as (w1 & b & ->).
  by apply HP.
Qed.

Lemma returns_initialize : returns Service.initialize.
Proof.
  intros [w s]. destruct (initialize_run w s) as (w1 & b & ->). by eexists.
Qed.

Lemma keeps_buildHNSWIndex_consistent :
  keeps Service.consistent Service.buildHNSWIndex.
Proof.
  intros w s (Hwf & Hids & Hinv).
  assert (Service.embeddings s = [] ∨ Service.embeddings s ≠ []) as [Hl|Hl]
    by (destruct (Service.embeddings s); [by left|by right]).
  - by rewrite buildHNSWIndex_empty.
  - destruct (Service.buildHNSWIndex (w, s)) as [[w' s'] r] eqn:Hbuild.
    destruct (index_maps_after_build _ _ _ _ _ Hl Hwf Hbuild)
      as (_ & Hsame & _ & _ & Hinv' & _).
    cbv beta iota delta [fst snd]. split; [|split]; [|by rewrite Hsame|done].
    unfold JSMap.wf. by rewrite Hsame.
Qed.

Lemma consistent_set_embeddings m s :
  JSMap.wf m → (∀ k e, (k, e) ∈ m → ne_noteId e = k) →
  Service.consistent s → Service.consistent (Service.set_embeddings m s).
Proof. intros Hwf Hids (_ & _ & Hinv). by split. Qed.

Lemma JSMap_elem_of_delete {V : Type} key (m : list (string * V)) entry :
  entry ∈ JSMap.delete key m → entry ∈ m.
Proof.
  induction m as [|[k v] m IH]; simpl; [done|].
  case_bool_decide; [by right|].
  rewrite !elem_of_cons. intros [->|Hin]; [by left|right; by apply IH].
Qed.

Lemma JSMap_elem_of_set {V : Type} key (v : V) (m : list (string * V)) entry :
  entry ∈ JSMap.set key v m → entry = (key, v) ∨ entry ∈ m.
Proof.
  induction m as [|[k v'] m IH]; simpl.
  - rewrite list_elem_of_singleton. by left.
  - case_bool_decide.
    + rewrite !elem_of_cons. intros [->|Hin]; [by left|right; by right].
    + rewrite !elem_of_cons. intros [->|Hin]; [right; by left|].
      destruct (IH Hin) as [->|?]; [by left|right; by right].
Qed.

Lemma consistent_delete noteId s :
  Service.consistent s →
  Service.consistent
    (Service.set_embeddings (JSMap.delete noteId (Service.embeddings s)) s).
Proof.
  intros Hs. pose proof Hs as (Hwf & Hids & _).
  apply consistent_set_embeddings; [by apply JSMap_wf_delete| |done].
  intros k e Hin. apply Hids. by eapply JSMap_elem_of_delete.
Qed.

Lemma consistent_set noteId e s :
  ne_noteId e = noteId →
  Service.consistent s →
  Service.consistent
    (Service.set_embeddings (JSMap.set noteId e (Service.embeddings s)) s).
Proof.
  intros He Hs. pose proof Hs as (Hwf & Hids & _).
  apply consistent_set_embeddings; [by apply JSMap_wf_set| |done].
  intros k e' Hin. apply JSMap_elem_of_set in Hin as [[= -> ->]|Hin]; [done|].
  by apply Hids.
Qed.

Lemma keeps_remove_and_rebuild noteId :
  keeps Service.consistent (Service.remove_and_rebuild noteId).
Proof.
  unfold Service.remove_and_rebuild.
  apply keeps_bind; [apply keeps_update; intros s; apply consistent_delete|].
  intros _. apply keeps_this. intros w s Hs.
  pose proof (keeps_bind Service.consistent
    (match Service.storeRef s with
     | Some store =>
         Service.outside (λ w, store_commit_embeddingRemoved w store noteId)
     | None => Service.ret ()
     end) (λ _, Service.buildHNSWIndex)) as Hkeep.
  apply Hkeep; [|intros _; apply keeps_buildHNSWIndex_consistent|done].
  destruct (Service.storeRef s); [apply keeps_outside|apply keeps_ret].
Qed.

Lemma keeps_removeNote noteId :
  keeps Service.consistent (Service.removeNote noteId).
Proof.
  apply keeps_try_catch; [apply keeps_remove_and_rebuild|].
  intros e. apply keeps_ret.
Qed.

Lemma keeps_addOrUpdateNote noteId title content :
  keeps Service.consistent
    (Service.addOrUpdateNote noteId title content).
Proof.
  unfold Service.addOrUpdateNote.
  apply keeps_try_catch; [|intros e; apply keeps_ret].
  apply keeps_bind; [apply keeps_initialize; intros; by apply consistent_set_isReady|].
  intros _. destruct (blank _); [apply keeps_remove_and_rebuild|].
  apply keeps_bind; [apply keeps_outside|]. intros vector.
  apply keeps_bind; [apply keeps_update; intros s; by apply consistent_set|].
  intros _. apply keeps_this. intros w s Hs.
  pose proof (keeps_bind Service.consistent
    (match Service.storeRef s with
     | Some store =>
         Service.outside (λ w, store_commit_noteEmbedded w store
           {| ne_noteId := noteId; ne_title := title;
              ne_content := blocksToText (Some content);
              ne_embedding := l2Normalize vector |})
     | None => Service.ret ()
     end) (λ _, Service.buildHNSWIndex)) as Hkeep.
  apply Hkeep; [|intros _; apply keeps_buildHNSWIndex_consistent|done].
  destruct (Service.storeRef s); [apply keeps_outside|apply keeps_ret].
Qed.

Lemma returns_addOrUpdateNote noteId title content :
  returns (Service.addOrUpdateNote noteId title content).
Proof. apply returns_try_catch. intros e. apply returns_ret. Qed.

Lemma returns_removeNote noteId : returns (Service.removeNote noteId).
Proof. apply returns_try_catch. intros e. apply returns_ret. Qed.

Lemma keeps_search query limit :
  keeps Service.consistent (Service.search query limit).
Proof.
  intros w s Hs. destruct (search_run query limit w s) as (w1 & b & _ & ->).
  destruct (Service.hnswIndex s); [|done].
  destruct (blank query || _); [done|].
  by destruct (embeddingService_embed w1 _) as [w2 r].
Qed.

Lemma wf_load_rows rows (m : list (string * NoteEmbedding)) :
  JSMap.wf m → (∀ k e, (k, e) ∈ m → ne_noteId e = k) →
  JSMap.wf (fold_left Service.load_row rows m) ∧
  (∀ k e, (k, e) ∈ fold_left Service.load_row rows m → ne_noteId e = k).
Proof.
  revert m. induction rows as [|row rows IH]; intros m Hwf Hids; [done|].
  simpl. apply IH.
  - unfold Service.load_row. destruct row as [row|]; [|done].
    destruct (row_vecData row); [|done].
    destruct (blobToVec _ _); [|done]. by apply JSMap_wf_set.
  - unfold Service.load_row. destruct row as [row|]; [|done].
    destruct (row_vecData row); [|done].
    destruct (blobToVec _ _); [|done].
    intros k e Hin. apply JSMap_elem_of_set in Hin as [[= -> ->]|Hin]; [done|].
    by apply Hids.
Qed.

Lemma consistent_clear s :
  Service.consistent s → Service.consistent (Service.set_embeddings [] s).
Proof.
  intros Hs. apply consistent_set_embeddings; [apply NoDup_nil_2| |done].
  intros k e Hin. by apply elem_of_nil in Hin.
Qed.

Lemma keeps_loadEmbeddingsFromStore :
  keeps Service.consistent Service.loadEmbeddingsFromStore.
Proof.
  unfold Service.loadEmbeddingsFromStore. apply keeps_this. intros w s Hs.
  destruct (Service.storeRef s) as [store|]; [|done].
  revert w s Hs. apply keeps_try_catch; [|intros e; apply keeps_ret].
  apply keeps_bind; [apply keeps_outside|]. intros rows.
  apply keeps_bind; [apply keeps_update; apply consistent_clear|].
  intros _. apply keeps_bind; [|intros _; apply keeps_buildHNSWIndex_consistent].
  destruct rows as [rows|]; [|apply keeps_ret].
  apply keeps_update. intros s Hs. pose proof Hs as (Hwf & Hids & _).
  destruct (wf_load_rows rows _ Hwf Hids). by apply consistent_set_embeddings.
Qed.

Lemma returns_loadEmbeddingsFromStore :
  returns Service.loadEmbeddingsFromStore.
Proof.
  unfold Service.loadEmbeddingsFromStore.
  apply returns_bind; [apply returns_this|]. intros s.
  destruct (Service.storeRef s) as [store|]; [|apply returns_ret].
  apply returns_try_catch. intros e. apply returns_ret.
Qed.

Lemma keeps_setStore store :
  keeps Service.consistent (Service.setStore store).
Proof.
  unfold Service.setStore.
  apply keeps_bind; [by apply keeps_update|]. intros _.
  apply keeps_this. intros w s Hs.
  destruct (negb _ && _); [|done].
  revert w s Hs. apply keeps_bind; [apply keeps_loadEmbeddingsFromStore|].
  intros _. by apply keeps_update.
Qed.

Lemma keeps_sync_notes notes :
  keeps Service.consistent (Service.sync_notes notes).
Proof.
  induction notes as [|note notes IH]; [apply keeps_ret|].
  simpl. apply keeps_bind; [|by intros _].
  apply keeps_try_catch; [apply keeps_addOrUpdateNote|intros e; apply keeps_ret].
Qed.

Lemma returns_sync_notes notes : returns (Service.sync_notes notes).
Proof.
  induction notes as [|note notes IH]; [apply returns_ret|].
  simpl. apply returns_bind; [|by intros _].
  apply returns_try_catch. intros e. apply returns_ret.
Qed.

Lemma keeps_syncAllNotes notes :
  keeps Service.consistent (Service.syncAllNotes notes).
Proof.
  unfold Service.syncAllNotes.
  apply keeps_try_catch; [|intros e; apply keeps_ret].
  apply keeps_bind; [apply keeps_initialize; intros; by apply consistent_set_isReady|].
  intros _. apply keeps_bind; [apply keeps_update; apply consistent_clear|].
  intros _. apply keeps_bind; [apply keeps_sync_notes|].
  intros _. apply keeps_bind; [apply keeps_loadEmbeddingsFromStore|].
  intros _. apply keeps_this. by intros w s Hs.
Qed.

Lemma keeps_getStoredEmbeddingCount P :
  keeps P Service.getStoredEmbeddingCount.
Proof.
  unfold Service.getStoredEmbeddingCount. apply keeps_this. intros w s Hs.
  destruct (Service.storeRef s) as [store|]; [|done].
  revert w s Hs. apply keeps_try_catch; [|intros e; apply keeps_ret].
  apply keeps_bind; [apply keeps_outside|]. intros n. apply keeps_ret.
Qed.
End CallFacts.

(** ** What the methods do to the notes *)
Section NoteFacts.
Context {W StoreRef Blob E : Type} `{!Collaborators W StoreRef Blob E}.
Implicit Types (w : W) (s : Service.t StoreRef) (noteId : string).
Local Abbreviation keeps P m := (@Service.keeps W StoreRef E P _ m).

Lemma keeps_buildHNSWIndex_frame (m : list (string * NoteEmbedding))
    (store : option StoreRef) (ready initialized : bool) :
  keeps (λ s, Service.embeddings s = m ∧ Service.storeRef s = store ∧
              Service.isReady s = ready ∧
              Service.isInitialized s = initialized)
        Service.buildHNSWIndex.
Proof.
  intros w s (Hm & Hstore & Hready & Hinit).
  destruct (buildHNSWIndex_run w s) as (s' & r & -> & He & Hr & Hi & Hs & _).
  cbv beta iota delta [fst snd]. by rewrite He, Hr, Hi, Hs.
Qed.

Lemma bind_update {A : Type} (f : Service.t StoreRef → Service.t StoreRef)
    (k : unit → @Service.act W StoreRef E A) w s :
  (Service.update f ≫= k) (w, s) = k () (w, f s).
Proof. reflexivity. Qed.

Lemma bind_this {A : Type}
    (k : Service.t StoreRef → @Service.act W StoreRef E A) w s :
  (Service.this ≫= k) (w, s) = k s (w, s).
Proof. reflexivity. Qed.

Lemma remove_and_rebuild_frame noteId w s :
  let s' := (Service.remove_and_rebuild noteId (w, s)).1.2 in
  Service.embeddings s' = JSMap.delete noteId (Service.embeddings s) ∧
  Service.storeRef s' = Service.storeRef s ∧
  Service.isReady s' = Service.isReady s ∧
  Service.isInitialized s' = Service.isInitialized s.
Proof.
  cbv zeta. unfold Service.remove_and_rebuild.
  rewrite bind_update, bind_this.
  apply (keeps_bind
    (λ s', Service.embeddings s'
           = JSMap.delete noteId (Service.embeddings s) ∧
           Service.storeRef s' = Service.storeRef s ∧
           Service.isReady s' = Service.isReady s ∧
           Service.isInitialized s' = Service.isInitialized s)).
  - destruct (Service.storeRef _); [apply keeps_outside|apply keeps_ret].
  - intros _. apply keeps_buildHNSWIndex_frame.
  - done.
Qed.

(** X13. [removeNote(noteId)] returns, whatever the store and the index do,
    and takes exactly the entry of [noteId] out of [embeddings]: the note
    is gone, every other note is as before, and [getEmbeddingCount] drops
    by one when the note was there. *)
Theorem removeNote_forgets noteId w s :
  JSMap.wf (Service.embeddings s) →
  let out := Service.removeNote noteId (w, s) in
  out.2 = Normal () ∧
  Service.embeddings out.1.2 = JSMap.delete noteId (Service.embeddings s) ∧
  JSMap.get noteId (Service.embeddings out.1.2) = None ∧
  (∀ k, k ≠ noteId →
     JSMap.get k (Service.embeddings out.1.2)
     = JSMap.get k (Service.embeddings s)) ∧
  Service.getEmbeddingCount out.1.2
  = Service.getEmbeddingCount s
    - (if JSMap.get noteId (Service.embeddings s) is Some _ then 1 else 0).
Proof.
  intros Hwf. cbv zeta.
  assert (Hout : (Service.removeNote noteId (w, s)).2 = Normal () ∧
    Service.embeddings (Service.removeNote noteId (w, s)).1.2
    = JSMap.delete noteId (Service.embeddings s)).
  { pose proof (remove_and_rebuild_frame noteId w s) as (Hframe & _).
    cbv zeta in Hframe. unfold Service.removeNote, Service.try_catch.
    destruct (Service.remove_and_rebuild noteId (w, s)) as [[w' s'] [[]|e]];
      by cbv beta iota delta [fst snd] in *. }
  destruct Hout as [Hret Hdel]. split; [done|]. split; [done|].
  rewrite Hdel. split; [by apply JSMap_get_delete_eq|].
  split; [intros k Hk; by apply JSMap_get_delete_ne|].
  unfold Service.getEmbeddingCount, JSMap.size.
  rewrite Hdel, JSMap_length_delete.
  destruct (JSMap.get noteId (Service.embeddings s)) eqn:Hget; [|lia].
  apply JSMap_get_Some in Hget.
  destruct (Service.embeddings s); [by apply elem_of_nil in Hget|simpl; lia].
Qed.

(** X14. A note that was removed is not found again: on a consistent
    service, no [search] after [removeNote(noteId)] returns a result for
    [noteId], also when the commit or the rebuild of the index failed. *)
Theorem removed_note_not_found noteId (query : string) (limit : option Z)
    w w' s (results : list SearchResult) :
  Service.consistent s →
  (Service.search query limit (w', (Service.removeNote noteId (w, s)).1.2)).2
    = Normal results →
  ∀ res, res ∈ results → sr_noteId res ≠ noteId.
Proof.
  intros Hs Hsearch res Hres.
  pose proof (keeps_removeNote noteId w s Hs) as (Hwf1 & Hids1 & _).
  pose proof (remove_and_rebuild_frame noteId w s) as (Hframe & _).
  cbv zeta in Hframe.
  assert (Hdel : Service.embeddings (Service.removeNote noteId (w, s)).1.2
                 = JSMap.delete noteId (Service.embeddings s)).
  { unfold Service.removeNote, Service.try_catch.
    destruct (Service.remove_and_rebuild noteId (w, s)) as [[w1 s1] [[]|e]];
      by cbv beta iota delta [fst snd] in *. }
  destruct (search_results_stored query limit w'
              (Service.removeNote noteId (w, s)).1.2)
    as (results' & Hret & _ & Hstored).
  cbv zeta in Hret. rewrite Hsearch in Hret. injection Hret as <-.
  destruct (Hstored res Hres) as (k & e & id & Hget & _ & _ & Hk & _).
  rewrite Hk. intros Heq.
  pose proof (JSMap_get_Some _ _ _ Hget) as Hin.
  rewrite (Hids1 k e Hin) in Heq. subst k.
  rewrite Hdel in Hget. destruct Hs as (Hwf & _).
  by rewrite JSMap_get_delete_eq in Hget.
Qed.
End NoteFacts.

(** ** Adding, loading and synchronizing notes *)
Section StoreFacts.
Context {W StoreRef Blob E : Type} `{!Collaborators W StoreRef Blob E}.
Implicit Types (w : W) (s : Service.t StoreRef) (noteId : string).
Local Abbreviation act := (@Service.act W StoreRef E).
Local Abbreviation keeps P m := (@Service.keeps W StoreRef E P _ m).
Local Abbreviation returns m := (@Service.returns W StoreRef E _ m).

Lemma bind_Normal {A B : Type} (m : act A) (k : A → act B) st st' (a : A) :
  m st = (st', Normal a) → (m ≫= k) st = k a st'.
Proof. intros Hm. act_unfold. by rewrite Hm. Qed.

Lemma bind_Abrupt {A B : Type} (m : act A) (k : A → act B) st st' (e : E) :
  m st = (st', Abrupt e) → (m ≫= k) st = (st', Abrupt e).
Proof. intros Hm. act_unfold. by rewrite Hm. Qed.

Lemma initialize_state w w1 s s1 (r : completion E unit) :
  Service.initialize (w, s) = ((w1, s1), r) →
  r = Normal () ∧ ∃ b, s1 = Service.set_isReady b s.
Proof.
  destruct (initialize_run w s) as (w' & b & ->). intros [= <- <- <-].
  split; [done|by exists b].
Qed.

(** The statements of [addOrUpdateNote] after the embedding of the text. *)
Lemma store_and_rebuild_frame noteId (embedding : NoteEmbedding) w s :
  let s' :=
    ((Service.update (λ s, Service.set_embeddings
        (JSMap.set noteId embedding (Service.embeddings s)) s) ≫= λ _,
      Service.this ≫= λ s,
      (match Service.storeRef s with
       | Some store =>
           Service.outside (λ w, store_commit_noteEmbedded w store embedding)
       | None => Service.ret ()
       end) ≫= λ _, Service.buildHNSWIndex) (w, s)).1.2 in
  Service.embeddings s' = JSMap.set noteId embedding (Service.embeddings s) ∧
  Service.storeRef s' = Service.storeRef s ∧
  Service.isReady s' = Service.isReady s ∧
  Service.isInitialized s' = Service.isInitialized s.
Proof.
  cbv zeta. rewrite bind_update, bind_this.
  apply (keeps_bind
    (λ s', Service.embeddings s'
           = JSMap.set noteId embedding (Service.embeddings s) ∧
           Service.storeRef s' = Service.storeRef s ∧
           Service.isReady s' = Service.isReady s ∧
           Service.isInitialized s' = Service.isInitialized s)).
  - destruct (Service.storeRef _); [apply keeps_outside|apply keeps_ret].
  - intros _. apply keeps_buildHNSWIndex_frame.
  - done.
Qed.

Lemma addOrUpdateNote_embedded noteId title content w w1 w2 s s1
    (vector : vector) :
  blank (blocksToText (Some content)) = false →
  Service.initialize (w, s) = ((w1, s1), Normal ()) →
  embeddingService_embed w1 [blocksToText (Some content)]
    = (w2, Normal vector) →
  let out := Service.addOrUpdateNote noteId title content (w, s) in
  out.2 = Normal () ∧
  Service.embeddings out.1.2
  = JSMap.set noteId
      {| ne_noteId := noteId; ne_title := title;
         ne_content := blocksToText (Some content);
         ne_embedding := l2Normalize vector |}
      (Service.embeddings s).
Proof.
  intros Hblank Hinit Hembed. cbv zeta.
  destruct (initialize_state _ _ _ _ _ Hinit) as (_ & b & ->).
  unfold Service.addOrUpdateNote, Service.try_catch.
  rewrite (bind_Normal _ _ _ _ _ Hinit), Hblank.
  erewrite bind_Normal; [|by unfold Service.outside; cbv beta iota delta [fst snd]; rewrite Hembed].
  pose proof (store_and_rebuild_frame noteId
    {| ne_noteId := noteId; ne_title := title;
       ne_content := blocksToText (Some content);
       ne_embedding := l2Normalize vector |} w2 (Service.set_isReady b s))
    as (Hframe & _).
  cbv zeta in Hframe.
  match goal with
  | |- context [let '(st', r) := ?call in _] =>
      destruct call as [[w3 s3] [[]|e]]
  end; by cbv beta iota delta [fst snd] in *.
Qed.

(** X15. When the text of a note is not blank and the embedding service
    returns a vector, [addOrUpdateNote] returns and stores under the id
    of the note a record with that id, the title, the text and the
    vector that [l2Normalize] gives, whatever the store and the index do
    afterwards.  The other notes stay. *)
Theorem addOrUpdateNote_stores noteId title content w w1 w2 s s1
    (vector : vector) :
  blank (blocksToText (Some content)) = false →
  Service.initialize (w, s) = ((w1, s1), Normal ()) →
  embeddingService_embed w1 [blocksToText (Some content)]
    = (w2, Normal vector) →
  let out := Service.addOrUpdateNote noteId title content (w, s) in
  let embedding :=
    {| ne_noteId := noteId; ne_title := title;
       ne_content := blocksToText (Some content);
       ne_embedding := l2Normalize vector |} in
  out.2 = Normal () ∧
  Service.embeddings out.1.2
    = JSMap.set noteId embedding (Service.embeddings s) ∧
  JSMap.get noteId (Service.embeddings out.1.2) = Some embedding ∧
  (∀ k, k ≠ noteId →
     JSMap.get k (Service.embeddings out.1.2)
     = JSMap.get k (Service.embeddings s)).
Proof.
  intros Hblank Hinit Hembed. cbv zeta.
  destruct (addOrUpdateNote_embedded noteId title content w w1 w2 s s1 vector
              Hblank Hinit Hembed) as [Hret Hset].
  cbv zeta in Hset. rewrite Hset. split; [done|]. split; [done|].
  split; [apply JSMap_get_set_eq|].
  intros k Hk. by apply JSMap_get_set_ne.
Qed.

(** X16. When the embedding service throws, [addOrUpdateNote] returns all
    the same and leaves the service as [initialize] left it: no note is
    added or changed, nothing is committed and the index is not
    rebuilt. *)
Theorem addOrUpdateNote_embed_failure noteId title content w w1 w2 s s1
    (e : E) :
  blank (blocksToText (Some content)) = false →
  Service.initialize (w, s) = ((w1, s1), Normal ()) →
  embeddingService_embed w1 [blocksToText (Some content)] = (w2, Abrupt e) →
  Service.addOrUpdateNote noteId title content (w, s)
  = ((w2, s1), Normal ()).
Proof.
  intros Hblank Hinit Hembed.
  unfold Service.addOrUpdateNote, Service.try_catch.
  rewrite (bind_Normal _ _ _ _ _ Hinit), Hblank.
  erewrite bind_Abrupt; [done|].
  unfold Service.outside. cbv beta iota delta [fst snd]. by rewrite Hembed.
Qed.

(** X17. A note without text is taken out of the index:
    [addOrUpdateNote] with blocks that carry no text returns, removes the
    entry of the note from [embeddings] and leaves the other notes. *)
Theorem addOrUpdateNote_textless noteId title content w s :
  Forall textless content →
  let out := Service.addOrUpdateNote noteId title content (w, s) in
  out.2 = Normal () ∧
  Service.embeddings out.1.2 = JSMap.delete noteId (Service.embeddings s) ∧
  ∀ k, k ≠ noteId →
    JSMap.get k (Service.embeddings out.1.2)
    = JSMap.get k (Service.embeddings s).
Proof.
  intros Htextless. cbv zeta.
  assert (Hout :
    (Service.addOrUpdateNote noteId title content (w, s)).2 = Normal () ∧
    Service.embeddings (Service.addOrUpdateNote noteId title content (w, s)).1.2
    = JSMap.delete noteId (Service.embeddings s)).
  { destruct (initialize_run w s) as (w1 & b & Hinit).
    unfold Service.addOrUpdateNote, Service.try_catch.
    rewrite (bind_Normal _ _ _ _ _ Hinit).
    rewrite (blocksToText_textless_blank content Htextless).
    pose proof (remove_and_rebuild_frame noteId w1 (Service.set_isReady b s))
      as (Hframe & _).
    cbv zeta in Hframe.
    destruct (Service.remove_and_rebuild noteId _) as [[w2 s2] [[]|e]];
      by cbv beta iota delta [fst snd] in *. }
  destruct Hout as [Hret Hdel]. split; [done|]. split; [done|].
  intros k Hk. rewrite Hdel. by apply JSMap_get_delete_ne.
Qed.
End StoreFacts.

(** ** Loading from the store and synchronizing *)
Section SyncFacts.
Context {W StoreRef Blob E : Type} `{!Collaborators W StoreRef Blob E}.
Implicit Types (w : W) (s : Service.t StoreRef) (noteId : string).
Local Abbreviation act := (@Service.act W StoreRef E).
Local Abbreviation keeps P m := (@Service.keeps W StoreRef E P _ m).
Local Abbreviation returns m := (@Service.returns W StoreRef E _ m).

(** X18. The service is consistent after every sequence of calls of its
    public methods on a new service, whatever the collaborators do: the
    notes have distinct ids, every record carries the id it is stored
    under, and [noteIdToIndex] and [indexToNoteId] are inverse to each
    other. *)
Theorem service_consistent (cs : list (Service.call StoreRef)) w :
  Service.consistent (Service.run cs (w, Service.new)).2.
Proof.
  assert (Hnew : Service.consistent (w, @Service.new StoreRef).2).
  { split; [apply NoDup_nil_2|]. split; [|done].
    intros k e Hin. by apply elem_of_nil in Hin. }
  revert Hnew. generalize (w, @Service.new StoreRef). clear w.
  induction cs as [|c cs IH]; intros [w s] Hs; [done|].
  simpl. apply IH. cbn [snd] in Hs. destruct c; simpl.
  - by apply keeps_setStore.
  - by apply keeps_addOrUpdateNote.
  - by apply keeps_removeNote.
  - by apply keeps_search.
  - by apply keeps_syncAllNotes.
  - by apply (keeps_getStoredEmbeddingCount Service.consistent).
Qed.

(** What a row adds to the notes. *)
Lemma load_rows_get rows (m : list (string * NoteEmbedding)) k e :
  JSMap.get k (fold_left Service.load_row rows m) = Some e →
  JSMap.get k m = Some e ∨
  ∃ row vecData,
    Some row ∈ rows ∧ row_noteId row = k ∧
    row_vecData row = Some vecData ∧
    blobToVec vecData (row_vecDim row) = Normal (ne_embedding e) ∧
    ne_noteId e = k ∧ ne_title e = row_title row ∧
    ne_content e = row_content row.
Proof.
  revert m. induction rows as [|row rows IH]; intros m Hget; [by left|].
  simpl in Hget. apply IH in Hget as [Hget|(row' & vecData & Hin & ?)].
  - unfold Service.load_row in Hget. destruct row as [row|]; [|by left].
    destruct (row_vecData row) as [vecData|] eqn:Hdata; [|by left].
    destruct (blobToVec vecData (row_vecDim row)) as [v|] eqn:Hvec; [|by left].
    destruct (decide (k = row_noteId row)) as [->|Hne].
    + rewrite JSMap_get_set_eq in Hget. injection Hget as <-.
      right. exists row, vecData. split; [left|]. done.
    + rewrite JSMap_get_set_ne in Hget by done. by left.
  - right. exists row', vecData. split; [by right|done].
Qed.

Lemma load_rows_keeps_keys rows (m : list (string * NoteEmbedding)) k :
  is_Some (JSMap.get k m) →
  is_Some (JSMap.get k (fold_left Service.load_row rows m)).
Proof.
  revert m. induction rows as [|row rows IH]; intros m Hk; [done|].
  simpl. apply IH. unfold Service.load_row. destruct row as [row|]; [|done].
  destruct (row_vecData row) as [vecData|]; [|done].
  destruct (blobToVec vecData (row_vecDim row)) as [v|]; [|done].
  destruct (decide (k = row_noteId row)) as [->|Hne].
  - by rewrite JSMap_get_set_eq.
  - by rewrite JSMap_get_set_ne.
Qed.

Lemma load_rows_valid rows (m : list (string * NoteEmbedding)) row vecData v :
  Some row ∈ rows → row_vecData row = Some vecData →
  blobToVec vecData (row_vecDim row) = Normal v →
  is_Some (JSMap.get (row_noteId row) (fold_left Service.load_row rows m)).
Proof.
  intros Hin Hdata Hvec. revert m.
  induction rows as [|row' rows IH]; intros m; [by apply elem_of_nil in Hin|].
  apply elem_of_cons in Hin as [<-|Hin]; [|by apply IH].
  simpl. apply load_rows_keeps_keys. unfold Service.load_row.
  by rewrite Hdata, Hvec, JSMap_get_set_eq.
Qed.

Lemma loadEmbeddingsFromStore_loaded (store : StoreRef) w w1 s rows :
  Service.storeRef s = Some store →
  store_query_select w store = (w1, Normal rows) →
  let out := Service.loadEmbeddingsFromStore (w, s) in
  out.2 = Normal () ∧ out.1.1 = w1 ∧
  Service.embeddings out.1.2
  = fold_left Service.load_row (default [] rows) [] ∧
  Service.storeRef out.1.2 = Some store ∧
  Service.isInitialized out.1.2 = Service.isInitialized s.
Proof.
  intros Hstore Hquery. cbv zeta. unfold Service.loadEmbeddingsFromStore.
  rewrite bind_this, Hstore. unfold Service.try_catch.
  erewrite bind_Normal; [|by unfold Service.outside;
    cbv beta iota delta [fst snd]; rewrite Hquery].
  rewrite bind_update.
  set (s1 := Service.set_embeddings (fold_left Service.load_row
               (default [] rows) []) s).
  assert (Hbuild : ∀ r : W * Service.t StoreRef * completion E unit,
    (let '(st', r') := Service.buildHNSWIndex (w1, s1) in
     match r' with
     | Normal a => (st', Normal a)
     | Abrupt e => Service.ret () st'
     end) = r →
    r.2 = Normal () ∧ r.1.1 = w1 ∧
    Service.embeddings r.1.2 = Service.embeddings s1 ∧
    Service.storeRef r.1.2 = Some store ∧
    Service.isInitialized r.1.2 = Service.isInitialized s).
  { intros r <-.
    destruct (buildHNSWIndex_run w1 s1)
      as (s' & r' & -> & He & _ & Hi & Hs & _).
    destruct r' as [[]|e]; unfold Service.ret;
      cbv beta iota delta [fst snd]; rewrite He, Hi, Hs;
      subst s1; cbn [Service.set_embeddings Service.storeRef
        Service.isInitialized Service.embeddings]; by rewrite Hstore. }
  destruct rows as [rows|]; apply Hbuild.
  - erewrite bind_Normal; [done|]. reflexivity.
  - erewrite bind_Normal; [done|]. reflexivity.
Qed.

(** X19. [loadEmbeddingsFromStore] with a store whose query returns an
    array replaces the notes in memory by the rows of the array.  Every
    note it holds afterwards stems from a row with data that [blobToVec]
    decoded, with the id, title and content of that row; every such row
    has its note; rows that are missing, have no data or fail to decode
    are skipped and do not stop the loading. *)
Theorem loadEmbeddingsFromStore_rows (store : StoreRef) w w1 s
    (rows : list (option (EmbeddingRow Blob))) :
  Service.storeRef s = Some store →
  store_query_select w store = (w1, Normal (Some rows)) →
  let out := Service.loadEmbeddingsFromStore (w, s) in
  out.2 = Normal () ∧
  Service.embeddings out.1.2 = fold_left Service.load_row rows [] ∧
  (∀ k e, JSMap.get k (Service.embeddings out.1.2) = Some e →
     ∃ row vecData,
       Some row ∈ rows ∧ row_noteId row = k ∧
       row_vecData row = Some vecData ∧
       blobToVec vecData (row_vecDim row) = Normal (ne_embedding e) ∧
       ne_noteId e = k ∧ ne_title e = row_title row ∧
       ne_content e = row_content row) ∧
  (∀ row vecData v,
     Some row ∈ rows → row_vecData row = Some vecData →
     blobToVec vecData (row_vecDim row) = Normal v →
     is_Some (JSMap.get (row_noteId row) (Service.embeddings out.1.2))).
Proof.
  intros Hstore Hquery. cbv zeta.
  destruct (loadEmbeddingsFromStore_loaded store w w1 s (Some rows)
              Hstore Hquery) as (Hret & _ & Hload & _).
  cbv zeta in Hload. simpl in Hload. rewrite Hload.
  split; [done|]. split; [done|]. split.
  - intros k e Hget. by apply load_rows_get in Hget as [Hget|Hrow].
  - intros row vecData v. apply load_rows_valid.
Qed.

(** X20. When the query of the store throws, [loadEmbeddingsFromStore]
    returns and leaves the service as it is: the notes in memory are not
    cleared and the index is not rebuilt. *)
Theorem loadEmbeddingsFromStore_query_failure (store : StoreRef) w w1 s
    (e : E) :
  Service.storeRef s = Some store →
  store_query_select w store = (w1, Abrupt e) →
  Service.loadEmbeddingsFromStore (w, s) = ((w1, s), Normal ()).
Proof.
  intros Hstore Hquery. unfold Service.loadEmbeddingsFromStore.
  rewrite bind_this, Hstore. unfold Service.try_catch.
  erewrite bind_Abrupt; [done|].
  unfold Service.outside. cbv beta iota delta [fst snd]. by rewrite Hquery.
Qed.
End SyncFacts.

Section SyncAllNotes.
Context {W StoreRef Blob E : Type} `{!Collaborators W StoreRef Blob E}.
Implicit Types (w : W) (s : Service.t StoreRef) (noteId : string).
Local Abbreviation act := (@Service.act W StoreRef E).
Local Abbreviation keeps P m := (@Service.keeps W StoreRef E P _ m).
Local Abbreviation returns m := (@Service.returns W StoreRef E _ m).

(** A call that returns the number of notes it leaves. *)
Local Abbreviation counts m :=
  (∀ st, (m st).2 = Normal (Service.getEmbeddingCount (m st).1.2)).

Lemma counts_bind {A : Type} (m : act A) (k : A → act Z) :
  returns m → (∀ a, counts (k a)) → counts (m ≫= k).
Proof.
  intros Hm Hk st. destruct (Hm st) as [a Ha]. act_unfold.
  destruct (m st) as [st' r]. cbv beta iota delta [snd] in Ha. subst r.
  apply Hk.
Qed.

(** X21. [syncAllNotes] never throws and returns the number of notes the
    service holds when it is done, for every list of notes and whatever
    the collaborators do; the answer 0 of its [catch] is never given for
    an error. *)
Theorem syncAllNotes_returns_count (notes : list Service.Note) w s :
  let out := Service.syncAllNotes notes (w, s) in
  out.2 = Normal (Service.getEmbeddingCount out.1.2).
Proof.
  cbv zeta. unfold Service.syncAllNotes, Service.try_catch.
  pose proof (counts_bind Service.initialize
    (λ _, Service.update (Service.set_embeddings []) ≫= λ _,
          Service.sync_notes notes ≫= λ _,
          Service.loadEmbeddingsFromStore ≫= λ _,
          Service.this ≫= λ s, Service.ret (JSMap.size (Service.embeddings s)))
    returns_initialize) as Hcounts.
  match goal with
  | |- context [let '(st', r) := ?body (w, s) in _] =>
      assert (Hbody : (body (w, s)).2
                      = Normal (Service.getEmbeddingCount (body (w, s)).1.2));
      [|destruct (body (w, s)) as [st' r];
        cbv beta iota delta [fst snd] in Hbody; by subst r]
  end.
  apply Hcounts. intros _.
  apply counts_bind; [apply returns_update|]. intros _.
  apply counts_bind; [apply returns_sync_notes|]. intros _.
  apply counts_bind; [apply returns_loadEmbeddingsFromStore|]. intros _.
  by intros [w' s'].
Qed.

Lemma keeps_storeRef_initialize (store : option StoreRef) :
  keeps (λ s, Service.storeRef s = store) Service.initialize.
Proof. by apply keeps_initialize. Qed.

Lemma keeps_storeRef_buildHNSWIndex (store : option StoreRef) :
  keeps (λ s, Service.storeRef s = store) Service.buildHNSWIndex.
Proof.
  intros w s Hs. destruct (buildHNSWIndex_run w s)
    as (s' & r & -> & _ & _ & _ & Hstore & _).
  cbv beta iota delta [fst snd]. by rewrite Hstore.
Qed.

Lemma keeps_within_buildHNSWIndex ids store :
  keeps (Service.within ids store) Service.buildHNSWIndex.
Proof.
  intros w s [Hkeys Hs]. destruct (buildHNSWIndex_run w s)
    as (s' & r & -> & He & _ & _ & Hstore & _).
  cbv beta iota delta [fst snd]. split; [by rewrite He|by rewrite Hstore].
Qed.

Lemma keeps_within_remove ids store noteId :
  keeps (Service.within ids store) (Service.remove_and_rebuild noteId).
Proof.
  intros w s [Hkeys Hs].
  destruct (remove_and_rebuild_frame noteId w s) as (He & Hstore & _).
  split; [|by rewrite Hstore].
  intros k Hk. rewrite He in Hk. apply Hkeys. by eapply JSMap_keys_delete.
Qed.

Lemma keeps_within_addOrUpdateNote ids store noteId title content :
  (blank (blocksToText (Some content)) = false → noteId ∈ ids) →
  keeps (Service.within ids store) (Service.addOrUpdateNote noteId title content).
Proof.
  intros Hid. unfold Service.addOrUpdateNote.
  apply keeps_try_catch; [|intros e; apply keeps_ret].
  apply keeps_bind; [by apply keeps_initialize|]. intros _.
  destruct (blank _) eqn:Hblank; [apply keeps_within_remove|].
  apply keeps_bind; [apply keeps_outside|]. intros vector.
  apply keeps_bind.
  - apply keeps_update. intros s [Hkeys Hs]. split; [|done].
    intros k. cbn [Service.set_embeddings Service.embeddings].
    rewrite JSMap_keys_set. destruct (JSMap.get noteId _); [apply Hkeys|].
    rewrite elem_of_app, list_elem_of_singleton.
    intros [Hk| ->]; [by apply Hkeys|by apply Hid].
  - intros _. apply keeps_this. intros w s Hs.
    destruct (Service.storeRef s) eqn:Hst; clear Hst; revert w s Hs;
      (apply keeps_bind; [|intros _; apply keeps_within_buildHNSWIndex]).
    + apply keeps_outside.
    + apply keeps_ret.
Qed.

Lemma keeps_within_sync_notes ids store notes :
  (∀ note, note ∈ notes →
     blank (blocksToText (Some (Service.note_content note))) = false →
     Service.note_id note ∈ ids) →
  keeps (Service.within ids store) (Service.sync_notes notes).
Proof.
  induction notes as [|note notes IH]; intros Hids; [apply keeps_ret|].
  simpl. apply keeps_bind.
  - apply keeps_try_catch; [|intros e; apply keeps_ret].
    apply keeps_within_addOrUpdateNote. apply Hids. left.
  - intros _. apply IH. intros note' Hin. apply Hids. by right.
Qed.

(** The state in which [syncAllNotes] calls [loadEmbeddingsFromStore]. *)
Lemma syncAllNotes_before_load (notes : list Service.Note) ids store w s :
  Service.storeRef s = store →
  (∀ note, note ∈ notes →
     blank (blocksToText (Some (Service.note_content note))) = false →
     Service.note_id note ∈ ids) →
  ∃ w1 s1,
    Service.within ids store s1 ∧
    Service.syncAllNotes notes (w, s) =
    Service.try_catch
      (Service.loadEmbeddingsFromStore ≫= λ _,
       Service.this ≫= λ s, Service.ret (JSMap.size (Service.embeddings s)))
      (λ _, Service.ret 0) (w1, s1).
Proof.
  intros Hstore Hids.
  destruct (initialize_run w s) as (w0 & b & Hinit).
  pose proof (keeps_within_sync_notes ids store notes Hids w0
    (Service.set_embeddings [] (Service.set_isReady b s))) as Hkeep.
  destruct (returns_sync_notes notes
    (w0, Service.set_embeddings [] (Service.set_isReady b s))) as [[] Hret].
  destruct (Service.sync_notes notes _) as [[w1 s1] r] eqn:Hsync.
  cbv beta iota delta [fst snd] in Hkeep, Hret. subst r.
  exists w1, s1. split.
  - apply Hkeep. split; [|done]. intros k Hk. by apply elem_of_nil in Hk.
  - unfold Service.syncAllNotes, Service.try_catch.
    rewrite (bind_Normal _ _ _ _ _ Hinit), bind_update.
    by rewrite (bind_Normal _ _ _ _ _ Hsync).
Qed.

(** X22. With a store, the notes after [syncAllNotes] are the ones of
    the rows that the store returns to the query of the last statement,
    made in the world that the loop over the notes leaves, its commits
    included: when that query returns an array, what the call embedded
    from its argument is replaced by what the rows give, and the call
    returns the number of loaded notes. *)
Theorem syncAllNotes_store_wins (notes : list Service.Note) (store : StoreRef)
    (rows : list (option (EmbeddingRow Blob))) w w1 w2 s s1 :
  Service.storeRef s = Some store →
  (Service.initialize ≫= λ _,
   Service.update (Service.set_embeddings []) ≫= λ _,
   Service.sync_notes notes) (w, s) = ((w1, s1), Normal ()) →
  store_query_select w1 store = (w2, Normal (Some rows)) →
  let out := Service.syncAllNotes notes (w, s) in
  Service.embeddings out.1.2 = fold_left Service.load_row rows [] ∧
  out.2 = Normal (JSMap.size (fold_left Service.load_row rows [])).
Proof.
  intros Hstore Hloop Hrows. cbv zeta.
  destruct (initialize_run w s) as (w0 & b & Hinit).
  rewrite (bind_Normal _ _ _ _ _ Hinit), bind_update in Hloop.
  pose proof (keeps_within_sync_notes
    ((λ note, Service.note_id note) <$> notes) (Some store) notes) as Hkeep.
  specialize (Hkeep
    (λ note Hin _, proj2 (list_elem_of_fmap _ _ _) (ex_intro _ note (conj eq_refl Hin)))
    w0 (Service.set_embeddings [] (Service.set_isReady b s))).
  rewrite Hloop in Hkeep. cbv beta iota delta [fst snd] in Hkeep.
  destruct Hkeep as [_ Hstore1].
  { split; [|done]. intros k Hk. by apply elem_of_nil in Hk. }
  destruct (loadEmbeddingsFromStore_loaded store w1 w2 s1 (Some rows)
              Hstore1 Hrows) as (Hret & _ & Hload & _).
  cbv zeta in Hret, Hload.
  unfold Service.syncAllNotes, Service.try_catch.
  rewrite (bind_Normal _ _ _ _ _ Hinit), bind_update.
  rewrite (bind_Normal _ _ _ _ _ Hloop).
  destruct (Service.loadEmbeddingsFromStore (w1, s1)) as [[w3 s3] r] eqn:Hl.
  cbv beta iota delta [fst snd] in Hret, Hload. subst r.
  rewrite (bind_Normal _ _ _ _ _ Hl), bind_this.
  unfold Service.ret. cbv beta iota delta [fst snd].
  by rewrite Hload.
Qed.

(** X23. Without a store, the notes after [syncAllNotes] are notes of its
    argument with a text that is not blank: the notes held before are
    cleared, and a note without text is not kept. *)
Theorem syncAllNotes_without_store (notes : list Service.Note) w s :
  Service.storeRef s = None →
  let out := Service.syncAllNotes notes (w, s) in
  ∀ k, k ∈ (Service.embeddings out.1.2).*1 →
    ∃ note, note ∈ notes ∧ Service.note_id note = k ∧
            blank (blocksToText (Some (Service.note_content note))) = false.
Proof.
  intros Hstore. cbv zeta.
  destruct (syncAllNotes_before_load notes
    ((λ note, Service.note_id note) <$>
       filter (λ note, blank (blocksToText (Some (Service.note_content note))) = false)
              notes) None w s Hstore)
    as (w1 & s1 & [Hkeys Hstore1] & ->).
  { intros note Hin Hblank. apply list_elem_of_fmap. exists note.
    split; [done|]. by apply list_elem_of_filter. }
  unfold Service.loadEmbeddingsFromStore. act_unfold. rewrite Hstore1.
  cbv beta iota delta [fst snd].
  intros k Hk. apply Hkeys, list_elem_of_fmap in Hk as (note & -> & Hin).
  apply list_elem_of_filter in Hin as [Hblank Hin]. by exists note.
Qed.

(** X24. [setStore] loads from the store at most once: after
    [setStore(store)] with a store the service is initialized, and a
    later [setStore] only replaces the reference; it does not query the
    store and touches neither notes nor index. *)
Theorem setStore_loads_once (store : StoreRef) (store' : option StoreRef) w s :
  let st1 := (Service.setStore (Some store) (w, s)).1 in
  Service.isInitialized st1.2 = true ∧
  Service.setStore store' st1
  = ((st1.1, Service.set_storeRef store' st1.2), Normal ()).
Proof.
  cbv zeta.
  assert (Hinit : Service.isInitialized
                    (Service.setStore (Some store) (w, s)).1.2 = true).
  { unfold Service.setStore. rewrite bind_update, bind_this.
    cbn [Service.set_storeRef Service.isInitialized].
    destruct (Service.isInitialized s) eqn:Hi; [done|].
    rewrite bool_decide_eq_true_2 by done. cbn [negb andb].
    destruct (returns_loadEmbeddingsFromStore
                (w, Service.set_storeRef (Some store) s)) as [[] Hret].
    destruct (Service.loadEmbeddingsFromStore _) as [[w1 s1] r] eqn:Hload.
    cbv beta iota delta [snd] in Hret. subst r.
    by rewrite (bind_Normal _ _ _ _ _ Hload). }
  split; [done|].
  destruct (Service.setStore (Some store) (w, s)) as [[w1 s1] r].
  cbv beta iota delta [fst snd] in *.
  unfold Service.setStore. rewrite bind_update, bind_this.
  cbn [Service.set_storeRef Service.isInitialized]. by rewrite Hinit.
Qed.
End SyncAllNotes.

(** ** The statements on the example service *)

#[local] Existing Instance example_collaborators.

Lemma example_service_wf : JSMap.wf (Service.embeddings example_service).
Proof.
  unfold JSMap.wf. simpl. apply NoDup_cons. split; [|apply NoDup_singleton].
  by intros ?%list_elem_of_singleton.
Qed.

Lemma example_service_ids (k : string) (e : NoteEmbedding) :
  (k, e) ∈ Service.embeddings example_service →
  k ≠ EmptyString ∧ ne_noteId e = k.
Proof.
  simpl. rewrite !elem_of_cons.
  intros [[= -> ->]|[[= -> ->]|Hin]]; [done|done|].
  by apply elem_of_nil in Hin.
Qed.

Lemma example_is_consistent : Service.consistent example_service.
Proof.
  split; [apply example_service_wf|]. split; [|done].
  intros k e Hin. by apply example_service_ids.
Qed.

Lemma buildHNSWIndex_numbers_notes_witness :
  let s' :=
    (Service.buildHNSWIndex
       ((), example_service)).1.2 in
  Service.nextIndex s' = 2 ∧
  Service.noteIdToIndex s' !! "b"%string = Some 1 ∧
  Service.indexToNoteId s' !! 1 = Some "b"%string.
Proof.
  cbv zeta.
  destruct (buildHNSWIndex_numbers_notes
              () () example_service
              (Service.buildHNSWIndex
                 ((), example_service)).1.2
              (Service.buildHNSWIndex
                 ((), example_service)).2)
    as (_ & _ & Hnext & Hmaps & _).
  - done.
  - apply example_service_wf.
  - reflexivity.
  - split; [exact Hnext|]. exact (Hmaps 1%nat "b"%string example_note_b eq_refl).
Defined.

(** The example service once its index is built. *)
Lemma example_built :
  Service.buildHNSWIndex ((), example_service)
  = (((),
      (Service.buildHNSWIndex ((), example_service)).1.2),
     Normal ()).
Proof. reflexivity. Qed.

Lemma search_no_results_witness :
  Service.search "  " None ((), example_service)
  = ((Service.initialize ((), example_service)).1, Normal []).
Proof.
  apply (search_no_results "  " None () example_service).
  left. reflexivity.
Defined.

Lemma search_ranking_witness :
  ∃ results,
    (Service.search "x" None
       ((), (Service.buildHNSWIndex ((), example_service)).1.2)).2
    = Normal results ∧
    (length results ≤ 2)%nat.
Proof.
  destruct (search_ranking "x" None () () ()
              (Service.buildHNSWIndex ((), example_service)).1.2
              (Service.set_isReady true
                 (Service.buildHNSWIndex ((), example_service)).1.2)
              (HNSW.new 16 200 None cosine) [3; 4]%R
              [mkHit 0 1%R; mkHit 7 (1 / 2)%R])
    as (results & Hsearch & _ & _ & Hlen); try reflexivity; [done|].
  exists results. by rewrite Hsearch.
Defined.

Lemma search_after_build_witness :
  (Service.search "x" None
     ((), (Service.buildHNSWIndex ((), example_service)).1.2)).2
  = Normal [mkSearchResult "a" "A" "alpha" 1%R].
Proof.
  rewrite (search_after_build "x" None () () () () example_service
             (Service.buildHNSWIndex ((), example_service)).1.2
             (Service.set_isReady true
                (Service.buildHNSWIndex ((), example_service)).1.2)
             (Normal ()) (HNSW.new 16 200 None cosine) [3; 4]%R
             [mkHit 0 1%R; mkHit 7 (1 / 2)%R]); try reflexivity.
  - done.
  - apply example_service_wf.
  - apply example_service_ids.
Defined.

Lemma removeNote_forgets_witness :
  let out := Service.removeNote "a" ((), example_service) in
  JSMap.get "a" (Service.embeddings out.1.2) = None ∧
  JSMap.get "b" (Service.embeddings out.1.2) = Some example_note_b ∧
  Service.getEmbeddingCount out.1.2 = 1.
Proof.
  destruct (removeNote_forgets "a" () example_service example_service_wf)
    as (_ & _ & Hgone & Hother & Hcount).
  split; [exact Hgone|]. split; [|exact Hcount].
  rewrite (Hother "b"%string) by done. reflexivity.
Defined.

Lemma removed_note_not_found_witness :
  sr_noteId (mkSearchResult "b" "B" "beta" 1%R) ≠ "a"%string.
Proof.
  apply (removed_note_not_found "a" "x" None () () example_service
           [mkSearchResult "b" "B" "beta" 1%R] example_is_consistent).
  - reflexivity.
  - left.
Defined.

Lemma addOrUpdateNote_stores_witness :
  let out := Service.addOrUpdateNote "c" "C" example_blocks
               ((), example_service) in
  JSMap.get "c" (Service.embeddings out.1.2)
  = Some {| ne_noteId := "c"; ne_title := "C"; ne_content := "hi";
            ne_embedding := l2Normalize [3; 4]%R |} ∧
  JSMap.get "a" (Service.embeddings out.1.2) = Some example_note_a.
Proof.
  destruct (addOrUpdateNote_stores "c" "C" example_blocks () () ()
              example_service (Service.set_isReady true example_service)
              [3; 4]%R) as (_ & _ & Hget & Hother); try reflexivity.
  split; [exact Hget|]. rewrite (Hother "a"%string) by done. reflexivity.
Defined.

Lemma addOrUpdateNote_embed_failure_witness :
  Service.addOrUpdateNote "c" "C"
    [mkBlock (Some (InlineContent [InlineText (Some "?"%string)]))]
    ((), example_service)
  = (((), Service.set_isReady true example_service), Normal ()).
Proof.
  apply (addOrUpdateNote_embed_failure "c" "C"
           [mkBlock (Some (InlineContent [InlineText (Some "?"%string)]))]
           () () () example_service
           (Service.set_isReady true example_service) ());
    reflexivity.
Defined.

Lemma addOrUpdateNote_textless_witness :
  Service.embeddings
    (Service.addOrUpdateNote "a" "A" [mkBlock None; mkBlock (Some TableContent)]
       ((), example_service)).1.2
  = [("b"%string, example_note_b)].
Proof.
  destruct (addOrUpdateNote_textless "a" "A"
              [mkBlock None; mkBlock (Some TableContent)] () example_service)
    as (_ & Hdel & _).
  - repeat constructor.
  - exact Hdel.
Defined.

Lemma loadEmbeddingsFromStore_rows_witness :
  Service.embeddings
    (Service.loadEmbeddingsFromStore
       ((), Service.set_storeRef (Some (Some example_rows)) example_service)).1.2
  = [("a"%string, example_note_a)].
Proof.
  destruct (loadEmbeddingsFromStore_rows (Some example_rows) () ()
              (Service.set_storeRef (Some (Some example_rows)) example_service)
              example_rows) as (_ & Hload & _); [reflexivity..|].
  exact Hload.
Defined.

Lemma loadEmbeddingsFromStore_query_failure_witness :
  Service.loadEmbeddingsFromStore
    ((), Service.set_storeRef (Some None) example_service)
  = (((), Service.set_storeRef (Some None) example_service), Normal ()).
Proof.
  apply (loadEmbeddingsFromStore_query_failure None () ()
           (Service.set_storeRef (Some None) example_service) ());
    reflexivity.
Defined.

(** [syncAllNotes] with a store that keeps the commits: the service holds
    the notes a and b, which the store never had, and is handed the note c;
    afterwards it holds c alone, as the row that its own commit left in
    the store gives it. *)
Lemma syncAllNotes_store_wins_witness :
  Service.embeddings
    (@Service.syncAllNotes _ _ _ _ recording_collaborators
       [Service.mkNote "c" "C" example_blocks]
       ([], recording_service)).1.2
  = [("c"%string,
      {| ne_noteId := "c"; ne_title := "C"; ne_content := "hi";
         ne_embedding := l2Normalize [3; 4]%R |})].
Proof.
  pose (row := Some (mkEmbeddingRow "c"%string "C"%string "hi"%string
                       (Some (l2Normalize [3; 4]%R)) 2)).
  edestruct (@syncAllNotes_store_wins _ _ _ _ recording_collaborators
               [Service.mkNote "c" "C" example_blocks] () [row]
               [] [row] [row] (recording_service))
    as (Hload & _); [reflexivity..|].
  exact Hload.
Defined.

Lemma syncAllNotes_without_store_witness :
  ∃ note,
    note ∈ [Service.mkNote "c" "C" example_blocks;
            Service.mkNote "d" "D" [mkBlock None]] ∧
    Service.note_id note = "c"%string ∧
    blank (blocksToText (Some (Service.note_content note))) = false.
Proof.
  apply (syncAllNotes_without_store
           [Service.mkNote "c" "C" example_blocks;
            Service.mkNote "d" "D" [mkBlock None]] () example_service
           eq_refl "c"%string).
  assert (Hkeys :
    (Service.embeddings
       (Service.syncAllNotes
          [Service.mkNote "c" "C" example_blocks;
           Service.mkNote "d" "D" [mkBlock None]]
          ((), example_service)).1.2).*1 = ["c"%string]) by reflexivity.
  rewrite Hkeys. left.
Defined.
